(** * speech-to-text: the session manager of [src/app/page.tsx]

    A shallow embedding of the two React components of the page, [SpeechToLetter]
    and [SpeechToText]: the transcript aggregator ([recognition.onresult]), the
    engine binding ([initializeRecognition], [stopRecognition]) and the two user
    intents ([toggleListening], [handleLanguageChange]), with the refs, the React
    state and the recognition objects they act on. *)

From Stdlib Require Import String Ascii List Bool Arith Lia.
From stdpp Require Import base list.
Import ListNotations.
Local Open Scope string_scope.
Local Open Scope list_scope.

(** ** Data of the Web Speech API, as the page declares it *)

(** [useState<'en-US' | 'es-ES'>]: the closed set of locale tags. *)
Inductive Language := en_US | es_ES.

Definition tag (l : Language) : string :=
  match l with en_US => "en-US" | es_ES => "es-ES" end.

Definition Language_eqb (a b : Language) : bool :=
  match a, b with
  | en_US, en_US | es_ES, es_ES => true
  | _, _ => false
  end.

(** [SpeechRecognitionAlternative]; the handlers read [transcript] only. *)
Record SpeechRecognitionAlternative := { transcript : string }.

(** [SpeechRecognitionResult]: a flag and one or more alternatives; [first] is
    the [result[0]] the handlers read. *)
Record SpeechRecognitionResult := {
  isFinal : bool;
  first : SpeechRecognitionAlternative;
  others : list SpeechRecognitionAlternative
}.

(** [SpeechRecognitionEvent]. *)
Record SpeechRecognitionEvent := {
  resultIndex : nat;
  results : list SpeechRecognitionResult
}.

(** A JavaScript string is truthy when it is not empty. *)
Definition truthy (s : string) : bool :=
  match s with EmptyString => false | String _ _ => true end.

(** [Array.prototype.join] on an array of strings. *)
Definition join (sep : string) (l : list string) : string := String.concat sep l.

Definition text (r : SpeechRecognitionResult) : string := transcript (first r).

(** [results.filter(result => result.isFinal).map(result => result[0].transcript)] *)
Definition finals (rs : list SpeechRecognitionResult) : list string :=
  map text (List.filter isFinal rs).

(** [results.filter(result => !result.isFinal).map(result => result[0].transcript)] *)
Definition interims (rs : list SpeechRecognitionResult) : list string :=
  map text (List.filter (fun r => negb (isFinal r)) rs).

(** ** The recognition objects and the component's state *)

(** A [SpeechRecognition] object. [started] is the engine's own flag: set by
    [start()], cleared when the object's end or error event has fired.
    [stopRequested] records a [stop()] the engine has accepted. *)
Record SpeechRecognition := {
  continuous : bool;
  interimResults : bool;
  lang : Language;
  started : bool;
  stopRequested : bool
}.

(** The calls the component makes on the engine, in program order. *)
Inductive EngineCall :=
| New (h : nat) (l : Language)
| Start (h : nat)
| Stop (h : nat).

(** What a render closes over: the state values the handlers read. *)
Record Render := { r_isListening : bool; r_language : Language }.

(** The rest of an async handler, parked on its [setElapse]. *)
Inductive Continuation :=
| ToggleAfterDelay
| LanguageAfterDelay (r : Render).

(** The host page: whether [window.SpeechRecognition || window.webkitSpeechRecognition]
    is defined, and whether this engine raises when [stop()] is called on an
    object that is not started. *)
Record Host := { capability : bool; stopThrows : bool }.

(** The component instance: React state, the three refs, and the part of the
    browser it talks to. *)
Record Session := {
  isListening : bool;
  spokenText : string;
  interimText : string;
  language : Language;
  recognitionRef : option nat;
  isInitializedRef : bool;
  isStartingRef : bool;
  heap : list SpeechRecognition;
  calls : list EngineCall;
  timers : list Continuation;
  alerts : nat;
  consoleErrors : nat
}.

Definition initial : Session := {|
  isListening := false; spokenText := ""; interimText := ""; language := en_US;
  recognitionRef := None; isInitializedRef := false; isStartingRef := false;
  heap := []; calls := []; timers := []; alerts := 0; consoleErrors := 0
|}.

Definition render (s : Session) : Render :=
  {| r_isListening := isListening s; r_language := language s |}.

(** Field updates. *)
Definition with_isListening (b : bool) (s : Session) : Session :=
  {| isListening := b; spokenText := spokenText s; interimText := interimText s;
     language := language s; recognitionRef := recognitionRef s;
     isInitializedRef := isInitializedRef s; isStartingRef := isStartingRef s;
     heap := heap s; calls := calls s; timers := timers s; alerts := alerts s;
     consoleErrors := consoleErrors s |}.

Definition with_spokenText (f : string -> string) (s : Session) : Session :=
  {| isListening := isListening s; spokenText := f (spokenText s);
     interimText := interimText s;
     language := language s; recognitionRef := recognitionRef s;
     isInitializedRef := isInitializedRef s; isStartingRef := isStartingRef s;
     heap := heap s; calls := calls s; timers := timers s; alerts := alerts s;
     consoleErrors := consoleErrors s |}.

Definition with_interimText (t : string) (s : Session) : Session :=
  {| isListening := isListening s; spokenText := spokenText s; interimText := t;
     language := language s; recognitionRef := recognitionRef s;
     isInitializedRef := isInitializedRef s; isStartingRef := isStartingRef s;
     heap := heap s; calls := calls s; timers := timers s; alerts := alerts s;
     consoleErrors := consoleErrors s |}.

Definition with_language (l : Language) (s : Session) : Session :=
  {| isListening := isListening s; spokenText := spokenText s;
     interimText := interimText s;
     language := l; recognitionRef := recognitionRef s;
     isInitializedRef := isInitializedRef s; isStartingRef := isStartingRef s;
     heap := heap s; calls := calls s; timers := timers s; alerts := alerts s;
     consoleErrors := consoleErrors s |}.

Definition with_recognitionRef (r : option nat) (s : Session) : Session :=
  {| isListening := isListening s; spokenText := spokenText s;
     interimText := interimText s;
     language := language s; recognitionRef := r;
     isInitializedRef := isInitializedRef s; isStartingRef := isStartingRef s;
     heap := heap s; calls := calls s; timers := timers s; alerts := alerts s;
     consoleErrors := consoleErrors s |}.

Definition with_isInitializedRef (b : bool) (s : Session) : Session :=
  {| isListening := isListening s; spokenText := spokenText s;
     interimText := interimText s;
     language := language s; recognitionRef := recognitionRef s;
     isInitializedRef := b; isStartingRef := isStartingRef s;
     heap := heap s; calls := calls s; timers := timers s; alerts := alerts s;
     consoleErrors := consoleErrors s |}.

Definition with_isStartingRef (b : bool) (s : Session) : Session :=
  {| isListening := isListening s; spokenText := spokenText s;
     interimText := interimText s;
     language := language s; recognitionRef := recognitionRef s;
     isInitializedRef := isInitializedRef s; isStartingRef := b;
     heap := heap s; calls := calls s; timers := timers s; alerts := alerts s;
     consoleErrors := consoleErrors s |}.

Definition with_heap (f : list SpeechRecognition -> list SpeechRecognition)
    (s : Session) : Session :=
  {| isListening := isListening s; spokenText := spokenText s;
     interimText := interimText s;
     language := language s; recognitionRef := recognitionRef s;
     isInitializedRef := isInitializedRef s; isStartingRef := isStartingRef s;
     heap := f (heap s); calls := calls s; timers := timers s; alerts := alerts s;
     consoleErrors := consoleErrors s |}.

Definition with_calls (f : list EngineCall -> list EngineCall) (s : Session) : Session :=
  {| isListening := isListening s; spokenText := spokenText s;
     interimText := interimText s;
     language := language s; recognitionRef := recognitionRef s;
     isInitializedRef := isInitializedRef s; isStartingRef := isStartingRef s;
     heap := heap s; calls := f (calls s); timers := timers s; alerts := alerts s;
     consoleErrors := consoleErrors s |}.

Definition with_timers (f : list Continuation -> list Continuation) (s : Session) : Session :=
  {| isListening := isListening s; spokenText := spokenText s;
     interimText := interimText s;
     language := language s; recognitionRef := recognitionRef s;
     isInitializedRef := isInitializedRef s; isStartingRef := isStartingRef s;
     heap := heap s; calls := calls s; timers := f (timers s); alerts := alerts s;
     consoleErrors := consoleErrors s |}.

Definition with_alerts (f : nat -> nat) (s : Session) : Session :=
  {| isListening := isListening s; spokenText := spokenText s;
     interimText := interimText s;
     language := language s; recognitionRef := recognitionRef s;
     isInitializedRef := isInitializedRef s; isStartingRef := isStartingRef s;
     heap := heap s; calls := calls s; timers := timers s; alerts := f (alerts s);
     consoleErrors := consoleErrors s |}.

Definition with_consoleErrors (f : nat -> nat) (s : Session) : Session :=
  {| isListening := isListening s; spokenText := spokenText s;
     interimText := interimText s;
     language := language s; recognitionRef := recognitionRef s;
     isInitializedRef := isInitializedRef s; isStartingRef := isStartingRef s;
     heap := heap s; calls := calls s; timers := timers s; alerts := alerts s;
     consoleErrors := f (consoleErrors s) |}.

(** ** Handlers as state transformers that may throw *)

Inductive Exn := InvalidStateError | TypeError.

Inductive Completion (A : Type) :=
| Normal (a : A)
| Throw (e : Exn).
Arguments Normal {A} a.
Arguments Throw {A} e.

(** A piece of handler code: it ends normally or throws, and the writes made
    before a throw stay. *)
Definition JS (A : Type) : Type := Session -> Completion A * Session.

Definition ret {A} (a : A) : JS A := fun s => (Normal a, s).

Definition bind {A B} (m : JS A) (k : A -> JS B) : JS B :=
  fun s => match m s with
           | (Normal a, s') => k a s'
           | (Throw e, s') => (Throw e, s')
           end.

Definition throw {A} (e : Exn) : JS A := fun s => (Throw e, s).

(** [try { m } catch (e) { h e }] *)
Definition try_catch {A} (m : JS A) (h : Exn -> JS A) : JS A :=
  fun s => match m s with
           | (Normal a, s') => (Normal a, s')
           | (Throw e, s') => h e s'
           end.

Definition read {A} (f : Session -> A) : JS A := fun s => (Normal (f s), s).
Definition write (f : Session -> Session) : JS unit := fun s => (Normal tt, f s).

Declare Scope js_scope.
Delimit Scope js_scope with js.
Notation "x <- m ;; k" := (bind m (fun x => k))
  (at level 100, m at next level, right associativity) : js_scope.
Notation "m ;; k" := (bind m (fun _ => k))
  (at level 100, right associativity) : js_scope.
Local Open Scope js_scope.

(** The state left by a task of the event loop. *)
Definition exec (m : JS unit) (s : Session) : Session := snd (m s).

(** The React setters. *)
Definition setIsListening (b : bool) : JS unit := write (with_isListening b).
Definition setSpokenText (f : string -> string) : JS unit := write (with_spokenText f).
Definition setInterimText (t : string) : JS unit := write (with_interimText t).
Definition setLanguage (l : Language) : JS unit := write (with_language l).

(** [await new Promise(resolve => setElapse(resolve, ...))]: the rest of the
    handler is parked and the task ends. *)
Definition await (k : Continuation) : JS unit :=
  write (with_timers (fun ts => ts ++ [k])).

(** ** The engine, as far as the component can observe it *)

Definition mark_started (b : bool) (o : SpeechRecognition) : SpeechRecognition :=
  {| continuous := continuous o; interimResults := interimResults o; lang := lang o;
     started := b; stopRequested := stopRequested o |}.

Definition mark_stopRequested (o : SpeechRecognition) : SpeechRecognition :=
  {| continuous := continuous o; interimResults := interimResults o; lang := lang o;
     started := started o; stopRequested := true |}.

(** The object after its end (or error) event has fired. *)
Definition ended (o : SpeechRecognition) : SpeechRecognition :=
  {| continuous := continuous o; interimResults := interimResults o; lang := lang o;
     started := false; stopRequested := false |}.

Definition is_null {A} (r : option A) : bool :=
  match r with None => true | Some _ => false end.

Module SpeechToLetter.

(** The [for] loop of [recognition.onresult], lines 44-51, over the results
    from [event.resultIndex] on. *)
Fixpoint loop (rs : list SpeechRecognitionResult) (final interim : string)
    : string * string :=
  match rs with
  | [] => (final, interim)
  | result :: rest =>
      if isFinal result
      then loop rest (final ++ text result ++ " ")%string interim
      else loop rest final (interim ++ text result)%string
  end.

(** [recognition.onresult], lines 40-59, on the pair
    ([spokenText], [interimText]). *)
Definition onresult (event : SpeechRecognitionEvent) (st : string * string)
    : string * string :=
  let '(final, interim) := loop (drop (resultIndex event) (results event)) "" "" in
  if truthy final then ((fst st ++ final)%string, "") else (fst st, interim).

(** The [onend] property of a recognition object: the handler installed by
    [initializeRecognition] (line 61), or the one [handleLanguageChange]
    installs (lines 89-94), which closes over the selected language and over
    the render it was created in. *)
Inductive OnEnd :=
| Default
| Restart (selectedLang : Language) (r : Render).

Record Recognition := {
  continuous : bool;
  interimResults : bool;
  lang : Language;
  started : bool;
  onend : OnEnd
}.

(** The component instance: React state, the one ref, and the engine's
    objects with the calls made on them. *)
Record Page := {
  isListening : bool;
  spokenText : string;
  interimText : string;
  language : Language;
  recognitionRef : option nat;
  heap : list Recognition;
  calls : list EngineCall;
  alerts : nat
}.

Definition initial : Page := {|
  isListening := false; spokenText := ""; interimText := ""; language := en_US;
  recognitionRef := None; heap := []; calls := []; alerts := 0
|}.

Definition render (p : Page) : Render :=
  {| r_isListening := isListening p; r_language := language p |}.

Definition setIsListening (b : bool) (p : Page) : Page :=
  {| isListening := b; spokenText := spokenText p; interimText := interimText p;
     language := language p; recognitionRef := recognitionRef p; heap := heap p;
     calls := calls p; alerts := alerts p |}.

Definition setLanguage (l : Language) (p : Page) : Page :=
  {| isListening := isListening p; spokenText := spokenText p;
     interimText := interimText p; language := l;
     recognitionRef := recognitionRef p; heap := heap p;
     calls := calls p; alerts := alerts p |}.

Definition setTexts (st : string * string) (p : Page) : Page :=
  {| isListening := isListening p; spokenText := fst st; interimText := snd st;
     language := language p; recognitionRef := recognitionRef p; heap := heap p;
     calls := calls p; alerts := alerts p |}.

Definition with_recognitionRef (r : option nat) (p : Page) : Page :=
  {| isListening := isListening p; spokenText := spokenText p;
     interimText := interimText p; language := language p;
     recognitionRef := r; heap := heap p; calls := calls p; alerts := alerts p |}.

Definition with_heap (f : list Recognition -> list Recognition) (p : Page) : Page :=
  {| isListening := isListening p; spokenText := spokenText p;
     interimText := interimText p; language := language p;
     recognitionRef := recognitionRef p; heap := f (heap p);
     calls := calls p; alerts := alerts p |}.

Definition logged (c : EngineCall) (p : Page) : Page :=
  {| isListening := isListening p; spokenText := spokenText p;
     interimText := interimText p; language := language p;
     recognitionRef := recognitionRef p; heap := heap p;
     calls := calls p ++ [c]; alerts := alerts p |}.

Definition alerted (p : Page) : Page :=
  {| isListening := isListening p; spokenText := spokenText p;
     interimText := interimText p; language := language p;
     recognitionRef := recognitionRef p; heap := heap p;
     calls := calls p; alerts := S (alerts p) |}.

Definition mark_started (b : bool) (o : Recognition) : Recognition :=
  {| continuous := continuous o; interimResults := interimResults o; lang := lang o;
     started := b; onend := onend o |}.

Definition with_onend (k : OnEnd) (o : Recognition) : Recognition :=
  {| continuous := continuous o; interimResults := interimResults o; lang := lang o;
     started := started o; onend := k |}.

(** [recognition.start()]. *)
Definition engine_start (h : nat) (p : Page) : Completion unit * Page :=
  let p := logged (Start h) p in
  match heap p !! h with
  | Some o =>
      if started o then (Throw InvalidStateError, p)
      else (Normal tt, with_heap (alter (mark_started true) h) p)
  | None => (Throw TypeError, p)
  end.

(** [recognition.stop()]: the object stays started until its end event. *)
Definition engine_stop (host : Host) (h : nat) (p : Page) : Completion unit * Page :=
  let p := logged (Stop h) p in
  match heap p !! h with
  | Some o =>
      if started o then (Normal tt, p)
      else if stopThrows host then (Throw InvalidStateError, p)
      else (Normal tt, p)
  | None => (Throw TypeError, p)
  end.

(** [initializeRecognition], lines 27-66, in a render whose [language] is the
    argument. *)
Definition initializeRecognition (host : Host) (language : Language) (p : Page) : Page :=
  if negb (capability host) then alerted p
  else
    let h := length (heap p) in
    let recognition := {| continuous := true; interimResults := true;
                          lang := language; started := false; onend := Default |} in
    with_recognitionRef (Some h)
      (logged (New h language) (with_heap (fun hp => hp ++ [recognition]) p)).

(** [toggleListening], lines 73-83, in the render [r]; there is no [try]. *)
Definition toggleListening (host : Host) (r : Render) (p : Page)
    : Completion unit * Page :=
  match recognitionRef p with
  | None => (Normal tt, p)
  | Some h =>
      if negb (r_isListening r) then
        match engine_start h p with
        | (Normal _, p') => (Normal tt, setIsListening true p')
        | (Throw e, p') => (Throw e, p')
        end
      else
        match engine_stop host h p with
        | (Normal _, p') => (Normal tt, setIsListening false p')
        | (Throw e, p') => (Throw e, p')
        end
  end.

(** [handleLanguageChange], lines 85-100, in the render [r]. *)
Definition handleLanguageChange (host : Host) (r : Render) (selectedLang : Language)
    (p : Page) : Completion unit * Page :=
  match recognitionRef p with
  | Some h =>
      if r_isListening r then
        engine_stop host h (with_heap (alter (with_onend (Restart selectedLang r)) h) p)
      else (Normal tt, setLanguage selectedLang p)
  | None => (Normal tt, setLanguage selectedLang p)
  end.

(** The handler of lines 89-94, run when the object it was installed on
    ends. *)
Definition restart (host : Host) (selectedLang : Language) (r : Render) (p : Page)
    : Completion unit * Page :=
  let p := initializeRecognition host (r_language r) (setLanguage selectedLang p) in
  match recognitionRef p with
  | None => (Throw TypeError, p)
  | Some h =>
      match engine_start h p with
      | (Normal _, p') => (Normal tt, with_heap (alter (with_onend Default) h) p')
      | (Throw e, p') => (Throw e, p')
      end
  end.

(** The [onend] handler of the object [h]. *)
Definition fire_onend (host : Host) (h : nat) (p : Page) : Completion unit * Page :=
  match heap p !! h with
  | Some o =>
      match onend o with
      | Default => (Normal tt, setIsListening false p)
      | Restart selectedLang r => restart host selectedLang r p
      end
  | None => (Normal tt, p)
  end.

(** The page-level [recognition.onresult]. *)
Definition fire_onresult (event : SpeechRecognitionEvent) (p : Page) : Page :=
  setTexts (onresult event (spokenText p, interimText p)) p.

Inductive Event :=
| Click
| Select (l : Language)
| EngineResult (ev : SpeechRecognitionEvent)
| EngineEnd (h : nat).

(** The render after a task, with the effect of lines 68-71 when [language]
    changed: [initializeRecognition] of the new render, and no cleanup. *)
Definition rerender (host : Host) (before : Language) (p : Page) : Page :=
  if Language_eqb (language p) before then p
  else initializeRecognition host (language p) p.

Definition mount (host : Host) : Page := initializeRecognition host en_US initial.

Definition dispatch (host : Host) (e : Event) (p : Page) : Page :=
  match e with
  | Click => snd (toggleListening host (render p) p)
  | Select l => rerender host (language p) (snd (handleLanguageChange host (render p) l p))
  | EngineResult ev => fire_onresult ev p
  | EngineEnd h =>
      rerender host (language p)
        (snd (fire_onend host h (with_heap (alter (mark_started false) h) p)))
  end.

Definition run (host : Host) (es : list Event) (p : Page) : Page :=
  fold_left (fun p e => dispatch host e p) es p.

End SpeechToLetter.

Section SpeechToText.

Variable host : Host.

(** [new SpeechRecognition()] and the three assignments of lines 235-238. *)
Definition construct (l : Language) : JS nat :=
  fun s =>
    let h := length (heap s) in
    let o := {| continuous := true; interimResults := true; lang := l;
                started := false; stopRequested := false |} in
    (Normal h, with_calls (fun c => c ++ [New h l]) (with_heap (fun hp => hp ++ [o]) s)).

(** [recognition.start()]: refused on an object that is already started. *)
Definition engine_start (h : nat) : JS unit :=
  write (with_calls (fun c => c ++ [Start h]));;
  o <- read (fun s => heap s !! h);;
  match o with
  | Some r =>
      if started r then throw InvalidStateError
      else write (with_heap (alter (mark_started true) h))
  | None => throw TypeError
  end.

(** [recognition.stop()]: accepted on a started object; on any other the call
    is ignored, or raises on the engines that do so. *)
Definition engine_stop (h : nat) : JS unit :=
  write (with_calls (fun c => c ++ [Stop h]));;
  o <- read (fun s => heap s !! h);;
  match o with
  | Some r =>
      if started r then write (with_heap (alter mark_stopRequested h))
      else if stopThrows host then throw InvalidStateError
      else ret tt
  | None => throw TypeError
  end.

(** [stopRecognition], lines 210-220. *)
Definition stopRecognition : JS unit :=
  ref <- read recognitionRef;;
  match ref with
  | Some h =>
      try_catch (engine_stop h) (fun _ => ret tt);;
      write (with_isInitializedRef false);;
      setIsListening false
  | None => ret tt
  end.

(** [initializeRecognition], lines 225-275, in a render whose [language] is
    the argument. The three handlers it wires are [onresult], [onend] and
    [onerror] below. *)
Definition initializeRecognition (language : Language) : JS unit :=
  if negb (capability host) then write (with_alerts S)
  else
    stopRecognition;;
    h <- construct language;;
    write (with_recognitionRef (Some h));;
    write (with_isInitializedRef true).

(** [recognition.onresult], lines 240-258. *)
Definition onresult (event : SpeechRecognitionEvent) : JS unit :=
  let results := results event in
  let final := join " " (finals results) in
  let interim := join "" (interims results) in
  if truthy final then
    setSpokenText (fun prev => (prev ++ final ++ " ")%string);;
    setInterimText ""
  else setInterimText interim.

(** [recognition.onend], lines 260-264. *)
Definition onend : JS unit :=
  write (with_isStartingRef false);;
  setIsListening false;;
  write (with_isInitializedRef false).

(** [recognition.onerror], lines 266-271. *)
Definition onerror : JS unit :=
  write (with_consoleErrors S);;
  write (with_isStartingRef false);;
  setIsListening false;;
  write (with_isInitializedRef false).

(** The [catch] block shared by the two async handlers. *)
Definition caught (_ : Exn) : JS unit :=
  write (with_consoleErrors S);;
  write (with_isStartingRef false);;
  setIsListening false;;
  write (with_isInitializedRef false).

(** [recognitionRef.current.start()] *)
Definition start_current : JS unit :=
  ref <- read recognitionRef;;
  match ref with
  | Some h => engine_start h
  | None => throw TypeError
  end.

(** [toggleListening], lines 287-309, up to its [await], in the render [r]. *)
Definition toggleListening (r : Render) : JS unit :=
  ref <- read recognitionRef;;
  starting <- read isStartingRef;;
  if is_null ref || starting then ret tt
  else
    try_catch
      (if negb (r_isListening r) then
         write (with_isStartingRef true);;
         init <- read isInitializedRef;;
         (if negb init then initializeRecognition (r_language r) else ret tt);;
         await ToggleAfterDelay
       else stopRecognition)
      caught.

(** [toggleListening] after the 100 ms delay, lines 298-299. *)
Definition toggleListening_resumed : JS unit :=
  try_catch (start_current;; setIsListening true) caught.

(** [handleLanguageChange], lines 314-335, up to its [await]. *)
Definition handleLanguageChange (r : Render) (newLang : Language) : JS unit :=
  setLanguage newLang;;
  ref <- read recognitionRef;;
  if r_isListening r && negb (is_null ref) then
    try_catch (stopRecognition;; await (LanguageAfterDelay r)) caught
  else ret tt.

(** [handleLanguageChange] after the 300 ms delay, lines 323-327:
    [initializeRecognition] and [isListening] are those of the render the
    handler was created in. *)
Definition handleLanguageChange_resumed (r : Render) : JS unit :=
  try_catch
    (initializeRecognition (r_language r);;
     if r_isListening r then
       write (with_isStartingRef true);;
       start_current
     else ret tt)
    caught.

Definition resume (k : Continuation) : JS unit :=
  match k with
  | ToggleAfterDelay => toggleListening_resumed
  | LanguageAfterDelay r => handleLanguageChange_resumed r
  end.

(** ** The event loop *)

Inductive Event :=
| Click                                   (* the button: toggleListening *)
| Select (l : Language)                   (* the select: handleLanguageChange *)
| Elapse (i : nat)                       (* the i-th parked delay elapses *)
| EngineResult (ev : SpeechRecognitionEvent)
| EngineEnd (h : nat)
| EngineError (h : nat)
| Unmount.                                (* the effect's cleanup *)

(** The first render and its effect (lines 277-282). *)
Definition mount : Session := exec (initializeRecognition en_US) initial.

(** One task. After [Select], React renders again and, when [language]
    changed, runs the effect of lines 277-282: the cleanup of the previous
    render, then [initializeRecognition] of the new one. *)
Definition dispatch (e : Event) (s : Session) : Session :=
  match e with
  | Click => exec (toggleListening (render s)) s
  | Select l =>
      let s1 := exec (handleLanguageChange (render s) l) s in
      if Language_eqb l (language s) then s1
      else exec (stopRecognition;; initializeRecognition l) s1
  | Elapse i =>
      match timers s !! i with
      | Some k => exec (resume k) (with_timers (delete i) s)
      | None => s
      end
  | EngineResult ev => exec (onresult ev) s
  | EngineEnd h => exec onend (with_heap (alter ended h) s)
  | EngineError h => exec onerror (with_heap (alter ended h) s)
  | Unmount => exec stopRecognition s
  end.

Definition run (es : list Event) (s : Session) : Session :=
  fold_left (fun s e => dispatch e s) es s.

End SpeechToText.

Definition chrome : Host := {| capability := true; stopThrows := false |}.
Definition strict : Host := {| capability := true; stopThrows := true |}.
Definition bare : Host := {| capability := false; stopThrows := false |}.

Definition fin (t : string) : SpeechRecognitionResult :=
  {| isFinal := true; first := {| transcript := t |}; others := [] |}.
Definition part (t : string) : SpeechRecognitionResult :=
  {| isFinal := false; first := {| transcript := t |}; others := [] |}.
Definition batch (rs : list SpeechRecognitionResult) : SpeechRecognitionEvent :=
  {| resultIndex := 0; results := rs |}.

(** ** The transcript as the specification words it *)

(** The committed text after a sequence of batches: every batch contributes its
    final transcripts joined by single spaces, followed by one separator. *)
Definition spec_committed (batches : list (list SpeechRecognitionResult)) : string :=
  String.concat "" (map (fun b => (join " " (finals b) ++ " ")%string) batches).

(** The preview after one batch: empty when the batch holds a final result,
    the concatenation of its non-final transcripts otherwise. *)
Definition spec_preview (b : list SpeechRecognitionResult) : string :=
  if existsb isFinal b then "" else join "" (interims b).

(** ** Observations used in the statements *)

(** What one batch adds to [spokenText]. *)
Definition contribution (b : list SpeechRecognitionResult) : string :=
  match finals b with
  | [] => ""
  | [EmptyString] => ""
  | ts => (join " " ts ++ " ")%string
  end.

(** Whether the batch carries final text: two final results or more, or one
    whose transcript is not empty. *)
Definition commits (b : list SpeechRecognitionResult) : bool :=
  match finals b with
  | [] => false
  | [t] => truthy t
  | _ :: _ :: _ => true
  end.

Fixpoint endsWithSpace (t : string) : bool :=
  match t with
  | EmptyString => false
  | String c EmptyString => Ascii.eqb c " "
  | String _ rest => endsWithSpace rest
  end.

(** Empty, or ending with the separator. *)
Definition separated (t : string) : bool := negb (truthy t) || endsWithSpace t.

(** Number of [start()] calls in a log of engine calls. *)
Definition starts (c : list EngineCall) : nat :=
  length (List.filter (fun x => match x with Start _ => true | _ => false end) c).

(** The object [recognitionRef.current] points to. *)
Definition current (s : Session) : option SpeechRecognition :=
  match recognitionRef s with
  | Some h => heap s !! h
  | None => None
  end.

(** No recognition is running on the bound object. *)
Definition quiet (s : Session) : bool :=
  match current s with
  | Some o => negb (started o)
  | None => true
  end.

(** The objects after [stop()] on [h]: the engine takes the request on a
    started object and leaves everything else as it is. *)
Definition request_stop (h : nat) (hp : list SpeechRecognition) : list SpeechRecognition :=
  match hp !! h with
  | Some o => if started o then alter mark_stopRequested h hp else hp
  | None => hp
  end.

(** The session right after [stopRecognition] ran on the bound object [h]. *)
Definition stopped (h : nat) (s : Session) : Session :=
  with_isListening false
    (with_isInitializedRef false
       (with_heap (request_stop h) (with_calls (fun c => c ++ [Stop h]) s))).

(** The session right after a fresh object for [l] was bound. *)
Definition bound (l : Language) (s : Session) : Session :=
  with_isInitializedRef true
    (with_recognitionRef (Some (length (heap s)))
       (with_calls (fun c => c ++ [New (length (heap s)) l])
          (with_heap (fun hp => hp ++ [{| continuous := true; interimResults := true;
                                          lang := l; started := false;
                                          stopRequested := false |}]) s))).

(** The bound object is configured for the current language and not started. *)
Definition ready (s : Session) : bool :=
  match current s with
  | Some o =>
      negb (started o) && Language_eqb (lang o) (language s)
      && continuous o && interimResults o
  | None => false
  end.

(** The part of the session the control flow of the handlers depends on. *)
Definition control (s : Session) :=
  (recognitionRef s, isInitializedRef s, isStartingRef s, isListening s,
   heap s, language s, timers s).

(** What holds of every session the page reaches on a host with the
    capability: an object is bound; a session that is initialized, with the
    guard free and not showing listening, has its bound object ready; a parked
    language change was parked by a render that showed listening. *)
Definition consistent (s : Session) : Prop :=
  recognitionRef s <> None
  /\ (isInitializedRef s = true -> isStartingRef s = false -> isListening s = false ->
      ready s = true)
  /\ (forall r, LanguageAfterDelay r ∈ timers s -> r_isListening r = true).

(** The page after the button was pressed and the start delay elapsed. *)
Definition listening (host : Host) : Session :=
  run host [Click; Elapse 0] (mount host).

(** The listening page with a draft in the preview. *)
Definition drafting (host : Host) : Session :=
  run host [EngineResult (batch [part "wor"])] (listening host).

(** ** Observations on the engine's objects *)

(** The bound index points into the heap. *)
Definition in_range (ref : option nat) (hp : list SpeechRecognition) : Prop :=
  forall h, ref = Some h -> h < length hp.

(** Every object is configured for continuous recognition with interim
    results. *)
Definition configured (hp : list SpeechRecognition) : Prop :=
  forall j o, hp !! j = Some o -> continuous o = true /\ interimResults o = true.

(** A started object is the bound one, or has been asked to stop. *)
Definition live_is_bound (ref : option nat) (hp : list SpeechRecognition) : Prop :=
  forall j o, hp !! j = Some o -> started o = true ->
              ref = Some j \/ stopRequested o = true.

(** Every started object has been asked to stop. *)
Definition all_requested (hp : list SpeechRecognition) : Prop :=
  forall j o, hp !! j = Some o -> started o = true -> stopRequested o = true.

Definition tidy (s : Session) : Prop :=
  in_range (recognitionRef s) (heap s)
  /\ configured (heap s)
  /\ live_is_bound (recognitionRef s) (heap s).

(** The language of the last [Select] in a sequence of tasks, [l] when there is
    none. *)
Definition last_selected (es : list Event) (l : Language) : Language :=
  fold_left (fun acc e => match e with Select l' => l' | _ => acc end) es l.

(** A page with two start delays parked on the same object, the first of
    which has elapsed: the button, the end event of a late engine, the button
    again, one delay. *)
Definition twice_parked (host : Host) : Session :=
  run host [Click; EngineEnd 0; Click; Elapse 0] (mount host).

(** A page that shows listening with the guard free: the end event came
    before the start delay elapsed. *)
Definition unguarded (host : Host) : Session :=
  run host [Click; EngineEnd 0; Elapse 0] (mount host).

(** ** What a piece of handler code leaves alone *)

(** [keeps f m]: running [m] never changes the observation [f], whether it
    ends normally or throws. *)
Definition keeps {A B} (f : Session -> B) (m : JS A) : Prop :=
  forall s, f (snd (m s)) = f s.

(** * Properties *)

Section Keeps.
Context {B : Type} (f : Session -> B).

Lemma keeps_ret {A} (a : A) : keeps f (ret a).
Proof. intros s; reflexivity. Qed.

Lemma keeps_throw {A} e : keeps f (@throw A e).
Proof. intros s; reflexivity. Qed.

Lemma keeps_read {A} (g : Session -> A) : keeps f (read g).
Proof. intros s; reflexivity. Qed.

Lemma keeps_write g : (forall s, f (g s) = f s) -> keeps f (write g).
Proof. intros H s; apply H. Qed.

Lemma keeps_bind {A C} (m : JS A) (k : A -> JS C) :
  keeps f m -> (forall a, keeps f (k a)) -> keeps f (bind m k).
Proof.
  intros Hm Hk s. unfold bind. specialize (Hm s).
  destruct (m s) as [[a|e] s']; simpl in *; [rewrite Hk|]; exact Hm.
Qed.

Lemma keeps_try_catch {A} (m : JS A) h :
  keeps f m -> (forall e, keeps f (h e)) -> keeps f (try_catch m h).
Proof.
  intros Hm Hh s. unfold try_catch. specialize (Hm s).
  destruct (m s) as [[a|e] s']; simpl in *; [|rewrite Hh]; exact Hm.
Qed.

Lemma keeps_if {A} (b : bool) (m1 m2 : JS A) :
  keeps f m1 -> keeps f m2 -> keeps f (if b then m1 else m2).
Proof. destruct b; auto. Qed.

Lemma keeps_exec (m : JS unit) s : keeps f m -> f (exec m s) = f s.
Proof. intros H; apply H. Qed.
End Keeps.

(** Solves [keeps f m] for the handlers of the component, once
    [unfold_handlers] has exposed their bodies. *)
Ltac keeps_tac :=
  repeat first
    [ apply keeps_ret | apply keeps_throw | apply keeps_read
    | apply keeps_write; intros; reflexivity
    | apply keeps_bind; [|intros]
    | apply keeps_try_catch; [|intros]
    | apply keeps_if
    | match goal with |- keeps _ (match ?x with _ => _ end) => destruct x end
    | solve [intros ?; reflexivity] ].

(** Reads a field through the field updates, and nothing else. *)
Ltac fields :=
  cbn [isListening spokenText interimText language recognitionRef isInitializedRef
       isStartingRef heap calls timers alerts consoleErrors
       with_isListening with_spokenText with_interimText with_language
       with_recognitionRef with_isInitializedRef with_isStartingRef with_heap
       with_calls with_timers with_alerts with_consoleErrors stopped bound
       render r_isListening r_language fst snd].

Ltac unfold_handlers :=
  unfold resume, toggleListening_resumed, handleLanguageChange_resumed,
    toggleListening, handleLanguageChange, start_current, caught, onend, onerror,
    initializeRecognition, stopRecognition, engine_start, engine_stop, await,
    setIsListening, setLanguage.

(** ** The aggregator *)

Lemma truthy_append_r a b : truthy b = true -> truthy (a ++ b)%string = true.
Proof. destruct a; simpl; auto. Qed.

Lemma truthy_join_space ts :
  truthy (join " " ts) =
  match ts with [] => false | [t] => truthy t | _ :: _ :: _ => true end.
Proof.
  destruct ts as [|t [|u ts]]; try reflexivity.
  unfold join. cbn [String.concat]. apply truthy_append_r. reflexivity.
Qed.

Lemma truthy_commits b : truthy (join " " (finals b)) = commits b.
Proof. unfold commits. apply truthy_join_space. Qed.

Lemma contribution_commits b :
  contribution b = if commits b then (join " " (finals b) ++ " ")%string else "".
Proof.
  unfold contribution, commits.
  destruct (finals b) as [|t [|u ts]]; try destruct t; reflexivity.
Qed.

Lemma append_nil_r (a : string) : (a ++ "")%string = a.
Proof. induction a; simpl; congruence. Qed.

Lemma append_assoc (a b c : string) : ((a ++ b) ++ c)%string = (a ++ b ++ c)%string.
Proof. induction a; simpl; congruence. Qed.

Lemma onresult_spokenText ev s :
  spokenText (exec (onresult ev) s) = (spokenText s ++ contribution (results ev))%string.
Proof.
  rewrite contribution_commits, <- truthy_commits.
  unfold exec, onresult.
  destruct (truthy (join " " (finals (results ev)))); simpl.
  - reflexivity.
  - symmetry; apply append_nil_r.
Qed.

Lemma onresult_interimText ev s :
  interimText (exec (onresult ev) s) =
  if commits (results ev) then "" else join "" (interims (results ev)).
Proof.
  rewrite <- truthy_commits. unfold exec, onresult.
  destruct (truthy (join " " (finals (results ev)))); reflexivity.
Qed.

(** ** The transcript buffers are written by [onresult] alone *)

Section Buffers.
Variable host : Host.

Lemma stopRecognition_keeps_spokenText : keeps spokenText (stopRecognition host).
Proof. unfold_handlers; keeps_tac. Qed.

Lemma initializeRecognition_keeps_spokenText l :
  keeps spokenText (initializeRecognition host l).
Proof. unfold_handlers; keeps_tac. Qed.

Lemma toggleListening_keeps_spokenText r : keeps spokenText (toggleListening host r).
Proof. unfold_handlers; keeps_tac. Qed.

Lemma handleLanguageChange_keeps_spokenText r l :
  keeps spokenText (handleLanguageChange host r l).
Proof. unfold_handlers; keeps_tac. Qed.

Lemma resume_keeps_spokenText k : keeps spokenText (resume host k).
Proof. destruct k; unfold_handlers; keeps_tac. Qed.

Lemma onend_keeps_spokenText : keeps spokenText onend.
Proof. unfold_handlers; keeps_tac. Qed.

Lemma onerror_keeps_spokenText : keeps spokenText onerror.
Proof. unfold_handlers; keeps_tac. Qed.

Lemma stopRecognition_keeps_interimText : keeps interimText (stopRecognition host).
Proof. unfold_handlers; keeps_tac. Qed.

Lemma initializeRecognition_keeps_interimText l :
  keeps interimText (initializeRecognition host l).
Proof. unfold_handlers; keeps_tac. Qed.

Lemma toggleListening_keeps_interimText r : keeps interimText (toggleListening host r).
Proof. unfold_handlers; keeps_tac. Qed.

Lemma handleLanguageChange_keeps_interimText r l :
  keeps interimText (handleLanguageChange host r l).
Proof. unfold_handlers; keeps_tac. Qed.

Lemma resume_keeps_interimText k : keeps interimText (resume host k).
Proof. destruct k; unfold_handlers; keeps_tac. Qed.

(** Every task other than a result event leaves [spokenText] as it was. *)
Lemma dispatch_spokenText e s :
  spokenText (dispatch host e s) =
  match e with
  | EngineResult ev => (spokenText s ++ contribution (results ev))%string
  | _ => spokenText s
  end.
Proof.
  destruct e; unfold dispatch.
  - apply toggleListening_keeps_spokenText.
  - destruct (Language_eqb l (language s)).
    + apply handleLanguageChange_keeps_spokenText.
    + rewrite (keeps_exec spokenText).
      * apply handleLanguageChange_keeps_spokenText.
      * apply keeps_bind; intros;
          [apply stopRecognition_keeps_spokenText
          |apply initializeRecognition_keeps_spokenText].
  - destruct (timers s !! i); [|reflexivity].
    rewrite (keeps_exec spokenText) by apply resume_keeps_spokenText. reflexivity.
  - apply onresult_spokenText.
  - rewrite (keeps_exec spokenText) by apply onend_keeps_spokenText. reflexivity.
  - rewrite (keeps_exec spokenText) by apply onerror_keeps_spokenText. reflexivity.
  - apply stopRecognition_keeps_spokenText.
Qed.

End Buffers.

Lemma run_app host es1 es2 s : run host (es1 ++ es2) s = run host es2 (run host es1 s).
Proof. unfold run. apply fold_left_app. Qed.

Lemma run_cons host e es s : run host (e :: es) s = run host es (dispatch host e s).
Proof. reflexivity. Qed.

Lemma run_results_spokenText host (evs : list SpeechRecognitionEvent) : forall s,
  spokenText (run host (map EngineResult evs) s) =
  (spokenText s ++ String.concat "" (map (fun ev => contribution (results ev)) evs))%string.
Proof.
  induction evs as [|ev evs IH]; intros s.
  - simpl. symmetry. apply append_nil_r.
  - cbn [map]. rewrite run_cons, IH, dispatch_spokenText, append_assoc.
    f_equal. destruct evs as [|ev' evs]; cbn [map String.concat].
    + apply append_nil_r.
    + reflexivity.
Qed.

(** C1 (as amended). After a sequence of result events, [spokenText] is what it
    was followed by the contributions of the batches in delivery order, where a
    batch contributes its final transcripts joined by single spaces plus one
    trailing space, and contributes nothing when that joined text is empty (no
    final result, or a single final result with an empty transcript). No task
    other than a result event changes [spokenText]. *)
Theorem committed_is_concatenation_of_contributions host
    (evs : list SpeechRecognitionEvent) (s : Session) :
  spokenText (run host (map EngineResult evs) s) =
    (spokenText s ++ String.concat "" (map (fun ev => contribution (results ev)) evs))%string
  /\ forall e, (exists ev, e = EngineResult ev)
               \/ spokenText (dispatch host e s) = spokenText s.
Proof.
  split.
  - apply run_results_spokenText.
  - intros e. pose proof (dispatch_spokenText host e s) as H.
    destruct e; eauto.
Qed.

(** C1 as stated fails: a batch whose only final transcript is empty, and a
    batch without final results, add nothing, where the stated formula has one
    separator for each. *)
Lemma committed_append_is_guarded :
  spokenText (run chrome [EngineResult (batch [fin ""])] (mount chrome))
    <> (spokenText (mount chrome) ++ spec_committed [[fin ""]])%string
  /\ spokenText (run chrome [EngineResult (batch [part "wor"])] (mount chrome))
    <> (spokenText (mount chrome) ++ spec_committed [[part "wor"]])%string.
Proof. split; vm_compute; discriminate. Qed.

(** C2 (as amended). After one result event the preview is empty when the batch
    carries final text (two or more final results, or one whose transcript is
    not empty); otherwise it is the concatenation, without separator, of the
    batch's non-final transcripts, whatever the preview was before. *)
Theorem preview_after_batch host (ev : SpeechRecognitionEvent) (s : Session) :
  interimText (dispatch host (EngineResult ev) s) =
    if commits (results ev) then "" else join "" (interims (results ev)).
Proof. apply onresult_interimText. Qed.

(** C2 as stated fails: the batch holds a final result, yet the preview is not
    cleared, because that result's transcript is empty. *)
Lemma preview_not_cleared_by_empty_final :
  existsb isFinal [fin ""; part "wor"] = true
  /\ interimText (dispatch chrome (EngineResult (batch [fin ""; part "wor"])) (mount chrome))
     = "wor"
  /\ spec_preview [fin ""; part "wor"] = "".
Proof. repeat split. Qed.

Lemma prefix_append (a b : string) : String.prefix a (a ++ b) = true.
Proof.
  induction a as [|c a IH]; simpl.
  - destruct b; reflexivity.
  - destruct (Ascii.ascii_dec c c); [exact IH | congruence].
Qed.

Lemma prefix_append_trans (a b c : string) :
  String.prefix a b = true -> String.prefix a (b ++ c) = true.
Proof.
  revert b. induction a as [|x a IH]; intros [|y b] H; simpl in *;
    try reflexivity; try discriminate.
  - destruct c; reflexivity.
  - destruct (Ascii.ascii_dec x y); [auto | discriminate].
Qed.

Lemma prefix_refl (a : string) : String.prefix a a = true.
Proof. rewrite <- (append_nil_r a) at 2. apply prefix_append. Qed.

Lemma dispatch_prefix host e s :
  String.prefix (spokenText s) (spokenText (dispatch host e s)) = true.
Proof.
  rewrite dispatch_spokenText.
  destruct e; first [apply prefix_append | apply prefix_refl].
Qed.

(** C7. Whatever task runs (a result, end or error event, the button, the
    select, an elapsed delay, the cleanup), [spokenText] before it is a prefix
    of [spokenText] after it; the same holds over any sequence of tasks. *)
Theorem committed_only_grows host (es : list Event) (s : Session) :
  String.prefix (spokenText s) (spokenText (run host es s)) = true
  /\ forall e, String.prefix (spokenText s) (spokenText (dispatch host e s)) = true.
Proof.
  split; [|intros e; apply dispatch_prefix].
  induction es as [|e es IH] using rev_ind.
  - apply prefix_refl.
  - rewrite run_app. cbn [run fold_left].
    pose proof (dispatch_spokenText host e (run host es s)) as H.
    destruct e; rewrite H; auto using prefix_append_trans.
Qed.

Lemma endsWithSpace_append (a : string) : endsWithSpace (a ++ " ") = true.
Proof.
  induction a as [|c a IH]; [reflexivity|].
  cbn [append endsWithSpace]. rewrite IH.
  destruct (a ++ " ")%string eqn:E; [|reflexivity].
  destruct a; discriminate.
Qed.

Lemma separated_contribution t b :
  separated t = true -> separated (t ++ contribution b) = true.
Proof.
  intros H. rewrite contribution_commits. destruct (commits b).
  - rewrite <- append_assoc. unfold separated.
    rewrite endsWithSpace_append. apply orb_true_r.
  - rewrite append_nil_r. exact H.
Qed.

Lemma dispatch_separated host e s :
  separated (spokenText s) = true -> separated (spokenText (dispatch host e s)) = true.
Proof.
  intros H. rewrite dispatch_spokenText.
  destruct e; auto using separated_contribution.
Qed.

Lemma mount_spokenText host : spokenText (mount host) = "".
Proof. unfold mount. rewrite (keeps_exec spokenText); [reflexivity|].
  apply initializeRecognition_keeps_spokenText. Qed.

(** C9. In every state the page can reach from its first render, [spokenText]
    is empty or ends with the separator: each append ends with one space. *)
Theorem committed_is_separated host (es : list Event) :
  separated (spokenText (run host es (mount host))) = true.
Proof.
  induction es as [|e es IH] using rev_ind.
  - cbn [run fold_left]. rewrite mount_spokenText. reflexivity.
  - rewrite run_app. cbn [run fold_left]. apply dispatch_separated. exact IH.
Qed.

(** ** The start guard and the missing handle *)

Lemma toggleListening_guarded host r s :
  isStartingRef s = true -> toggleListening host r s = (Normal tt, s).
Proof.
  intros H. unfold toggleListening, bind, read. rewrite H, orb_true_r. reflexivity.
Qed.

Lemma toggleListening_unbound host r s :
  recognitionRef s = None -> toggleListening host r s = (Normal tt, s).
Proof. intros H. unfold toggleListening, bind, read. rewrite H. reflexivity. Qed.


(** ** The engine binding in closed form *)

Lemma engine_stop_state host h s :
  snd (engine_stop host h s) =
  with_heap (request_stop h) (with_calls (fun c => c ++ [Stop h]) s).
Proof.
  unfold engine_stop, request_stop, bind, read, write, throw, ret; simpl.
  destruct s as [li sp it la rf ini st hp cs ts al ce]; simpl.
  unfold with_heap, with_calls; simpl.
  destruct (hp !! h) as [o|]; [|reflexivity].
  destruct (started o); [reflexivity|].
  destruct (stopThrows host); reflexivity.
Qed.

(** [stopRecognition] always ends normally. *)
Lemma stopRecognition_eq host s :
  stopRecognition host s =
  (Normal tt, match recognitionRef s with Some h => stopped h s | None => s end).
Proof.
  unfold stopRecognition. unfold bind at 1. unfold read at 1.
  destruct (recognitionRef s) as [h|] eqn:E; [|reflexivity].
  unfold bind at 1. unfold try_catch.
  pose proof (engine_stop_state host h s) as H.
  destruct (engine_stop host h s) as [[[]|e] s']; simpl in H; subst s'; reflexivity.
Qed.

Lemma initializeRecognition_eq host l s :
  initializeRecognition host l s =
  (Normal tt,
   if capability host
   then bound l (match recognitionRef s with Some h => stopped h s | None => s end)
   else with_alerts S s).
Proof.
  unfold initializeRecognition. destruct (capability host); [|reflexivity].
  cbn [negb]. unfold bind at 1. rewrite stopRecognition_eq. reflexivity.
Qed.

Lemma request_stop_quiet h s :
  recognitionRef s = Some h -> quiet s = true -> request_stop h (heap s) = heap s.
Proof.
  unfold quiet, current, request_stop. intros ->.
  destruct (heap s !! h) as [o|]; [|reflexivity].
  destruct (started o); [discriminate | reflexivity].
Qed.

(** C6. [stopRecognition] on a session that is not listening always ends
    normally, on every engine, also one whose [stop()] raises on an object that
    is not started: the listening flag stays off, both transcript buffers, the
    language, the bound object, the guard and the parked delays are unchanged,
    nothing is logged to the console, and when no recognition is running on the
    bound object the engine's objects are unchanged too. *)
Theorem stop_when_idle_is_silent host (s : Session) :
  isListening s = false ->
  exists s',
    stopRecognition host s = (Normal tt, s')
    /\ isListening s' = false
    /\ spokenText s' = spokenText s
    /\ interimText s' = interimText s
    /\ language s' = language s
    /\ recognitionRef s' = recognitionRef s
    /\ isStartingRef s' = isStartingRef s
    /\ timers s' = timers s
    /\ alerts s' = alerts s
    /\ consoleErrors s' = consoleErrors s
    /\ (quiet s = true -> heap s' = heap s).
Proof.
  intros Hl. eexists. split; [apply stopRecognition_eq|].
  destruct (recognitionRef s) as [h|] eqn:E; cbn; rewrite ?E; repeat split; auto.
  intros Hq. apply request_stop_quiet; assumption.
Qed.

(** On an engine that raises, the exception is there and is swallowed. *)
Lemma stop_when_idle_witness :
  fst (engine_stop strict 0 (mount strict)) = Throw InvalidStateError
  /\ isListening (mount strict) = false
  /\ exists s',
    stopRecognition strict (mount strict) = (Normal tt, s')
    /\ isListening s' = false
    /\ spokenText s' = spokenText (mount strict)
    /\ interimText s' = interimText (mount strict)
    /\ language s' = language (mount strict)
    /\ recognitionRef s' = recognitionRef (mount strict)
    /\ isStartingRef s' = isStartingRef (mount strict)
    /\ timers s' = timers (mount strict)
    /\ alerts s' = alerts (mount strict)
    /\ consoleErrors s' = consoleErrors (mount strict)
    /\ (quiet (mount strict) = true -> heap s' = heap (mount strict)).
Proof.
  split; [reflexivity|]. split; [reflexivity|].
  apply (stop_when_idle_is_silent strict (mount strict)). reflexivity.
Defined.

(** On a host without the capability nothing is ever bound, no delay is ever
    parked and the page never shows listening. *)
Lemma unsupported_never_binds host (es : list Event) :
  capability host = false ->
  let s := run host es (mount host) in
  recognitionRef s = None /\ timers s = [] /\ isListening s = false.
Proof.
  intros Hc. induction es as [|e es IH] using rev_ind.
  - cbn [run fold_left]. unfold mount, exec.
    rewrite initializeRecognition_eq, Hc. repeat split.
  - rewrite run_app. cbn [run fold_left]. cbv zeta in IH.
    destruct (run host es (mount host)) as [li sp it la rf ini st hp cs ts al ce].
    cbn in IH. destruct IH as (-> & -> & ->).
    destruct e; unfold dispatch, exec, render;
      rewrite ?toggleListening_unbound by reflexivity; try (repeat split; fail).
    + unfold handleLanguageChange, setLanguage, bind, write, read; cbn.
      destruct (Language_eqb l la); [repeat split|].
      rewrite initializeRecognition_eq, Hc. repeat split.
    + unfold onresult. destruct (truthy _); repeat split.
Qed.

(** C10. With no object bound, [toggleListening] returns at its first line:
    the whole session is as it was, in whichever render it runs, and the
    button task changes nothing. *)
Theorem toggle_without_handle_is_noop host (s : Session) :
  recognitionRef s = None ->
  (forall r, toggleListening host r s = (Normal tt, s))
  /\ dispatch host Click s = s.
Proof.
  intros H. split.
  - intros r. apply toggleListening_unbound, H.
  - unfold dispatch, exec. rewrite toggleListening_unbound by exact H. reflexivity.
Qed.

Lemma toggle_without_handle_witness :
  recognitionRef (mount bare) = None
  /\ (forall r, toggleListening bare r (mount bare) = (Normal tt, mount bare))
  /\ dispatch bare Click (mount bare) = mount bare.
Proof.
  split; [reflexivity|].
  apply (toggle_without_handle_is_noop bare (mount bare)). reflexivity.
Defined.

(** ** Starting *)

(** The start path of [toggleListening], up to the delay. *)
Lemma toggleListening_start host r s h :
  recognitionRef s = Some h -> isStartingRef s = false -> r_isListening r = false ->
  toggleListening host r s =
  (Normal tt,
   with_timers (fun ts => ts ++ [ToggleAfterDelay])
     (if isInitializedRef s then with_isStartingRef true s
      else if capability host
           then bound (r_language r) (stopped h (with_isStartingRef true s))
           else with_alerts S (with_isStartingRef true s))).
Proof.
  intros Hr Hs Hl. unfold toggleListening.
  unfold bind at 1. unfold read at 1. unfold bind at 1. unfold read at 1.
  rewrite Hr, Hs, Hl. cbn [is_null orb negb].
  unfold try_catch, bind at 1, write at 1. unfold bind at 1, read at 1.
  cbn [isInitializedRef with_isStartingRef].
  destruct (isInitializedRef s); cbn [negb].
  - reflexivity.
  - unfold bind at 1. rewrite initializeRecognition_eq.
    cbn [recognitionRef with_isStartingRef]. rewrite Hr.
    destruct (capability host); reflexivity.
Qed.

Lemma starts_app a b : starts (a ++ b) = starts a + starts b.
Proof. unfold starts. rewrite List.filter_app, length_app. reflexivity. Qed.

(** After a start path the guard is held, one more delay is parked, an object
    is bound and no [start()] has been issued yet. *)
Lemma toggleListening_start_facts host s h :
  recognitionRef s = Some h -> isStartingRef s = false -> isListening s = false ->
  let s1 := dispatch host Click s in
  isStartingRef s1 = true
  /\ timers s1 = timers s ++ [ToggleAfterDelay]
  /\ recognitionRef s1 <> None
  /\ starts (calls s1) = starts (calls s)
  /\ isListening s1 = false.
Proof.
  intros Hr Hs Hl. cbv zeta. unfold dispatch, exec.
  rewrite (toggleListening_start host (render s) s h) by assumption.
  cbn [snd]. destruct (isInitializedRef s); [|destruct (capability host)];
    cbn; rewrite ?Hr, ?Hl; repeat split; auto; try congruence.
  rewrite !List.filter_app, !length_app. unfold starts. cbn. lia.
Qed.

(** The resumed start issues exactly one [start()] when an object is bound. *)
Lemma toggleListening_resumed_calls s h :
  recognitionRef s = Some h ->
  calls (exec toggleListening_resumed s) = calls s ++ [Start h].
Proof.
  intros Hr. unfold exec, toggleListening_resumed, try_catch, start_current.
  unfold bind at 1. unfold bind at 1. unfold read at 1. rewrite Hr.
  unfold engine_start, bind, write, read, throw, caught, setIsListening; cbn.
  destruct (heap s !! h) as [o|]; [destruct (started o)|]; reflexivity.
Qed.

(** The resumed start on a bound object that is not started. *)
Lemma toggleListening_resumed_ok s h o :
  recognitionRef s = Some h -> heap s !! h = Some o -> started o = false ->
  exec toggleListening_resumed s =
  with_isListening true
    (with_heap (alter (mark_started true) h) (with_calls (fun c => c ++ [Start h]) s)).
Proof.
  intros Hr Hh Ho. unfold exec, toggleListening_resumed, try_catch, start_current.
  unfold bind at 1. unfold bind at 1. unfold read at 1. rewrite Hr.
  unfold engine_start, bind, write, read, throw, caught, setIsListening; cbn.
  rewrite Hh, Ho. reflexivity.
Qed.

Lemma dispatch_Click_guarded host s :
  isStartingRef s = true -> dispatch host Click s = s.
Proof.
  intros H. unfold dispatch, exec. rewrite toggleListening_guarded by exact H.
  reflexivity.
Qed.

Lemma dispatch_Elapse_last host s k :
  dispatch host (Elapse (length (timers s))) (with_timers (fun ts => ts ++ [k]) s) =
  exec (resume host k) (with_timers (fun ts => delete (length (timers s)) (ts ++ [k])) s).
Proof.
  unfold dispatch. cbn [timers with_timers].
  rewrite list_lookup_middle by reflexivity. reflexivity.
Qed.

Lemma dispatch_Elapse_parked host s k i :
  timers s !! i = Some k ->
  dispatch host (Elapse i) s = exec (resume host k) (with_timers (delete i) s).
Proof. intros H. unfold dispatch. rewrite H. reflexivity. Qed.

(** C3. While [isStartingRef] is set, [toggleListening] returns at its first
    line and leaves the whole session as it was. For two presses in a row on
    a bound, idle session: the first sets the guard and parks one delay, the
    second changes nothing, and once the delay has elapsed exactly one
    [start()] has been issued and no delay is left from the pair. *)
Theorem toggle_while_starting_is_dropped host :
  (forall s r, isStartingRef s = true -> toggleListening host r s = (Normal tt, s))
  /\ (forall s,
        recognitionRef s <> None -> isStartingRef s = false -> isListening s = false ->
        let s1 := dispatch host Click s in
        let k := length (timers s) in
        isStartingRef s1 = true
        /\ dispatch host Click s1 = s1
        /\ timers s1 = timers s ++ [ToggleAfterDelay]
        /\ run host [Click; Click; Elapse k] s = run host [Click; Elapse k] s
        /\ starts (calls (run host [Click; Click; Elapse k] s)) = S (starts (calls s))
        /\ timers (run host [Click; Click; Elapse k] s) = timers s).
Proof.
  split; [intros s r; apply toggleListening_guarded|].
  intros s Hr Hs Hl. cbv zeta.
  destruct (recognitionRef s) as [h|] eqn:E; [clear Hr|congruence].
  destruct (toggleListening_start_facts host s h E Hs Hl) as (Hg & Ht & Hb & Hc & _).
  assert (H2 : dispatch host Click (dispatch host Click s) = dispatch host Click s)
    by (apply dispatch_Click_guarded, Hg).
  cbn [run fold_left]. rewrite H2.
  repeat split; auto.
  - set (s1 := dispatch host Click s) in *.
    destruct (recognitionRef s1) as [h1|] eqn:E1; [|congruence].
    rewrite (dispatch_Elapse_parked host s1 ToggleAfterDelay)
      by (rewrite Ht; apply list_lookup_middle; reflexivity).
    cbn [resume]. rewrite (toggleListening_resumed_calls _ h1) by exact E1.
    cbn [calls with_timers]. rewrite starts_app, Hc. cbn. lia.
  - set (s1 := dispatch host Click s) in *.
    rewrite (dispatch_Elapse_parked host s1 ToggleAfterDelay)
      by (rewrite Ht; apply list_lookup_middle; reflexivity).
    cbn [resume]. rewrite (keeps_exec timers).
    + cbn [timers with_timers]. rewrite Ht.
      rewrite (delete_middle (timers s) [] ToggleAfterDelay). apply app_nil_r.
    + unfold_handlers; keeps_tac.
Qed.

Lemma toggle_while_starting_witness :
  let s := mount chrome in
  let s1 := dispatch chrome Click s in
  toggleListening chrome (render s1) s1 = (Normal tt, s1)
  /\ isStartingRef s1 = true
  /\ dispatch chrome Click s1 = s1
  /\ timers s1 = timers s ++ [ToggleAfterDelay]
  /\ run chrome [Click; Click; Elapse 0] s = run chrome [Click; Elapse 0] s
  /\ starts (calls (run chrome [Click; Click; Elapse 0] s)) = S (starts (calls s))
  /\ timers (run chrome [Click; Click; Elapse 0] s) = timers s.
Proof.
  cbv zeta. split.
  - apply (proj1 (toggle_while_starting_is_dropped chrome)). reflexivity.
  - apply (proj2 (toggle_while_starting_is_dropped chrome) (mount chrome));
      [discriminate | reflexivity | reflexivity].
Defined.

(** A press on a bound, idle session followed by its delay: the object that
    gets started, and the flags afterwards. When the session is still
    initialized the bound object is reused, so it must not be started. *)
Lemma press_and_wait host s h :
  capability host = true ->
  recognitionRef s = Some h -> isStartingRef s = false -> isListening s = false ->
  (isInitializedRef s = true ->
   exists o, heap s !! h = Some o /\ started o = false /\ lang o = language s
             /\ continuous o = true /\ interimResults o = true) ->
  let s2 := run host [Click; Elapse (length (timers s))] s in
  isListening s2 = true
  /\ isStartingRef s2 = true
  /\ language s2 = language s
  /\ spokenText s2 = spokenText s
  /\ interimText s2 = interimText s
  /\ timers s2 = timers s
  /\ exists h' o',
       recognitionRef s2 = Some h' /\ heap s2 !! h' = Some o'
       /\ lang o' = language s /\ started o' = true
       /\ continuous o' = true /\ interimResults o' = true
       /\ last (calls s2) = Some (Start h').
Proof.
  intros Hc Hr Hs Hl Hi. cbv zeta. cbn [run fold_left].
  assert (E1 : dispatch host Click s = snd (toggleListening host (render s) s))
    by reflexivity.
  rewrite E1, (toggleListening_start host (render s) s h) by assumption.
  cbn [snd]. rewrite Hc.
  destruct (isInitializedRef s) eqn:Ei.
  - destruct (Hi eq_refl) as (o & Ho & Hst & Hla & Hco & Hin).
    change (length (timers s)) with (length (timers (with_isStartingRef true s))).
    rewrite dispatch_Elapse_last. cbn [resume].
    rewrite (toggleListening_resumed_ok _ h o) by assumption.
    fields. rewrite (delete_middle (timers s) [] ToggleAfterDelay), app_nil_r.
    repeat split; auto.
    exists h, (mark_started true o). rewrite Hr, list_lookup_alter_eq, Ho.
    rewrite last_snoc. repeat split; auto.
  - set (s' := stopped h (with_isStartingRef true s)).
    change (length (timers s)) with (length (timers (bound (r_language (render s)) s'))).
    rewrite dispatch_Elapse_last. cbn [resume].
    set (o := {| continuous := true; interimResults := true; lang := language s;
                 started := false; stopRequested := false |}).
    rewrite (toggleListening_resumed_ok _ (length (heap s')) o);
      [| reflexivity | fields; apply list_lookup_middle; reflexivity | reflexivity].
    subst s'. fields.
    rewrite (delete_middle (timers s) [] ToggleAfterDelay), app_nil_r.
    repeat split; auto.
    exists (length (request_stop h (heap s))), (mark_started true o).
    rewrite list_lookup_alter_eq, list_lookup_middle by reflexivity.
    rewrite last_snoc. repeat split; auto.
Qed.

(** C4 fails on the code. After a confirmed start the page shows listening and
    [isStartingRef] is still set, on either kind of engine; the next press is
    therefore dropped at the guard and cannot stop the recognition. *)
Theorem guard_held_while_listening (throws : bool) :
  let host := {| capability := true; stopThrows := throws |} in
  let s := listening host in
  isListening s = true
  /\ isStartingRef s = true
  /\ dispatch host Click s = s
  /\ quiet s = false.
Proof. destruct throws; vm_compute; auto. Qed.

(** ** Changing the language *)

Lemma request_stop_length h hp : length (request_stop h hp) = length hp.
Proof.
  unfold request_stop. destruct (hp !! h) as [o|]; [|reflexivity].
  destruct (started o); [apply length_alter | reflexivity].
Qed.

(** [handleLanguageChange] in a render that shows listening, on a bound
    session, up to the delay. *)
Lemma handleLanguageChange_listening host r l s h :
  r_isListening r = true -> recognitionRef s = Some h ->
  handleLanguageChange host r l s =
  (Normal tt,
   with_timers (fun ts => ts ++ [LanguageAfterDelay r]) (stopped h (with_language l s))).
Proof.
  intros Hl Hr. unfold handleLanguageChange.
  unfold bind at 1, setLanguage, write at 1. unfold bind at 1, read at 1.
  fields. rewrite Hl, Hr. cbn [is_null negb andb].
  unfold try_catch, bind at 1. rewrite stopRecognition_eq. fields. rewrite Hr.
  reflexivity.
Qed.

(** [handleLanguageChange] in a render that does not show listening. *)
Lemma handleLanguageChange_idle host r l s :
  r_isListening r = false ->
  handleLanguageChange host r l s = (Normal tt, with_language l s).
Proof.
  intros Hl. unfold handleLanguageChange.
  unfold bind at 1, setLanguage, write at 1. unfold bind at 1, read at 1.
  rewrite Hl. reflexivity.
Qed.

(** The rest of [handleLanguageChange] after its delay, for a handler created
    in a render [r] that showed listening: a fresh object is bound for the
    language of that render and started under the guard. *)
Lemma handleLanguageChange_resumed_listening host r s h :
  capability host = true -> r_isListening r = true -> recognitionRef s = Some h ->
  exec (handleLanguageChange_resumed host r) s =
  with_heap (alter (mark_started true) (length (heap s)))
    (with_calls (fun c => c ++ [Start (length (heap s))])
       (with_isStartingRef true (bound (r_language r) (stopped h s)))).
Proof.
  intros Hc Hl Hr. unfold exec, handleLanguageChange_resumed, try_catch.
  unfold bind at 1. rewrite initializeRecognition_eq, Hc, Hr, Hl.
  unfold bind at 1, write at 1, start_current. unfold bind at 1, read at 1.
  fields. rewrite request_stop_length.
  unfold engine_start. unfold bind at 1, write at 1. unfold bind at 1, read at 1.
  fields.
  rewrite (list_lookup_middle (request_stop h (heap s)) [])
    by (symmetry; apply request_stop_length).
  reflexivity.
Qed.

(** The effect of lines 277-282 when [language] changed. *)
Lemma effect_eq host l s :
  exec (stopRecognition host;; initializeRecognition host l) s =
  let s' := match recognitionRef s with Some h => stopped h s | None => s end in
  if capability host
  then bound l (match recognitionRef s' with Some h => stopped h s' | None => s' end)
  else with_alerts S s'.
Proof.
  unfold exec, bind. rewrite stopRecognition_eq, initializeRecognition_eq. reflexivity.
Qed.

(** The select on a bound session that shows listening: the bound object is
    asked to stop, the page stops showing listening, one delay is parked. *)
Lemma select_while_listening host l s h :
  isListening s = true -> recognitionRef s = Some h ->
  let s1 := dispatch host (Select l) s in
  language s1 = l
  /\ isListening s1 = false
  /\ timers s1 = timers s ++ [LanguageAfterDelay (render s)]
  /\ recognitionRef s1 <> None
  /\ spokenText s1 = spokenText s
  /\ interimText s1 = interimText s
  /\ In (Stop h) (calls s1)
  /\ length (heap s) <= length (heap s1).
Proof.
  intros Hl Hr. cbv zeta. unfold dispatch.
  assert (E : exec (handleLanguageChange host (render s) l) s =
              with_timers (fun ts => ts ++ [LanguageAfterDelay (render s)])
                (stopped h (with_language l s)))
    by (unfold exec; rewrite (handleLanguageChange_listening host _ l s h);
        [reflexivity | exact Hl | exact Hr]).
  rewrite E. destruct (Language_eqb l (language s)).
  - fields. rewrite Hr. repeat split; auto.
    + rewrite in_app_iff; cbn [In]; tauto.
    + rewrite request_stop_length. lia.
  - rewrite effect_eq. fields. rewrite Hr. fields. rewrite Hr.
    destruct (capability host); fields; rewrite ?Hr; repeat split; auto;
      rewrite ?length_app, ?request_stop_length; try lia;
      rewrite !in_app_iff; cbn [In]; tauto.
Qed.

(** End events change neither the transcript, nor the language, nor the bound
    object, nor the parked delays, and the page does not show listening after
    one. *)
Lemma run_ends host (hs : list nat) : forall s,
  let s' := run host (map EngineEnd hs) s in
  spokenText s' = spokenText s /\ interimText s' = interimText s
  /\ language s' = language s /\ recognitionRef s' = recognitionRef s
  /\ timers s' = timers s
  /\ length (heap s') = length (heap s)
  /\ (isListening s = false -> isListening s' = false).
Proof.
  induction hs as [|h hs IH]; intros s; cbv zeta.
  - repeat split; auto.
  - cbn [map]. rewrite run_cons.
    destruct (IH (dispatch host (EngineEnd h) s))
      as (H1 & H2 & H3 & H4 & H5 & H6 & H7).
    rewrite H1, H2, H3, H4, H5, H6. repeat split; auto.
    unfold dispatch, exec, onend, bind, write. fields. apply length_alter.
Qed.

(** C5 (as amended). The select on a bound session that shows listening, then
    any end events, then the parked delay: [language] is the new one from the
    select on; the bound object is asked to stop and the page stops showing
    listening; after the delay a fresh object is bound and started with the
    guard set; [spokenText] and [interimText] are, at each point, what they
    were before the select. *)
Theorem language_change_while_listening host (l : Language) (s : Session)
    (h : nat) (ends : list nat) :
  capability host = true -> isListening s = true -> recognitionRef s = Some h ->
  let s1 := dispatch host (Select l) s in
  let s2 := run host (map EngineEnd ends) s1 in
  let s3 := dispatch host (Elapse (length (timers s))) s2 in
  (language s1 = l /\ isListening s1 = false /\ In (Stop h) (calls s1))
  /\ (language s3 = l /\ isStartingRef s3 = true
      /\ exists h' o', recognitionRef s3 = Some h' /\ length (heap s) <= h'
                       /\ heap s3 !! h' = Some o' /\ started o' = true
                       /\ last (calls s3) = Some (Start h'))
  /\ (spokenText s1 = spokenText s /\ interimText s1 = interimText s)
  /\ (spokenText s3 = spokenText s /\ interimText s3 = interimText s).
Proof.
  intros Hc Hl Hr. cbv zeta.
  destruct (select_while_listening host l s h Hl Hr)
    as (H1 & H2 & H3 & H4 & H5 & H6 & H7 & H8).
  set (s1 := dispatch host (Select l) s) in *.
  destruct (run_ends host ends s1) as (E1 & E2 & E3 & E4 & E5 & E6 & E7).
  set (s2 := run host (map EngineEnd ends) s1) in *.
  destruct (recognitionRef s2) as [h2|] eqn:R2; [|congruence].
  rewrite (dispatch_Elapse_parked host s2 (LanguageAfterDelay (render s)))
    by (rewrite E5, H3; apply list_lookup_middle; reflexivity).
  cbn [resume].
  rewrite (handleLanguageChange_resumed_listening host _ _ h2);
    [| exact Hc | exact Hl | exact R2].
  fields. repeat split; auto; try congruence.
  exists (length (heap s2)), (mark_started true
     {| continuous := true; interimResults := true; lang := language s;
        started := false; stopRequested := false |}).
  rewrite list_lookup_alter_eq.
  rewrite (list_lookup_middle (request_stop h2 (heap s2)) [])
    by (symmetry; apply request_stop_length).
  rewrite last_snoc, request_stop_length. repeat split; auto. lia.
Qed.

Lemma language_change_witness :
  let s := drafting chrome in
  let s3 := run chrome [Select es_ES; EngineEnd 0; Elapse 0] s in
  (capability chrome = true /\ isListening s = true /\ recognitionRef s = Some 0)
  /\ language s3 = es_ES /\ isStartingRef s3 = true
  /\ spokenText s3 = spokenText s /\ interimText s3 = interimText s.
Proof.
  cbv zeta. split; [repeat split|].
  destruct (language_change_while_listening chrome es_ES (drafting chrome) 0 [0]
              eq_refl eq_refl eq_refl) as (_ & (A & B & _) & _ & C & D).
  repeat split; assumption.
Defined.

(** C5 as stated fails: after the select, the end event of the stopped object
    and the delay, the page does not show listening, the preview still holds
    the draft, and the object that was started is configured for the previous
    language. *)
Lemma language_change_does_not_end_listening :
  let s := drafting chrome in
  let s3 := run chrome [Select es_ES; EngineEnd 0; Elapse 0] s in
  (isListening s = true /\ interimText s = "wor" /\ language s = en_US)
  /\ isListening s3 = false
  /\ interimText s3 = "wor"
  /\ language s3 = es_ES
  /\ option_map lang (current s3) = Some en_US
  /\ option_map started (current s3) = Some true.
Proof. vm_compute. repeat split. Qed.

(** ** Every reachable session is consistent *)

Lemma consistent_control s s' : control s' = control s -> consistent s -> consistent s'.
Proof.
  unfold control, consistent, ready, current. intros H.
  injection H as -> -> -> -> -> -> ->. auto.
Qed.

Lemma Language_eqb_eq a b : Language_eqb a b = true -> a = b.
Proof. destruct a, b; (reflexivity || discriminate). Qed.

Lemma Language_eqb_refl a : Language_eqb a a = true.
Proof. destruct a; reflexivity. Qed.

(** A freshly bound object is ready. *)
Lemma ready_fresh l hp s :
  recognitionRef s = Some (length hp) ->
  heap s = hp ++ [{| continuous := true; interimResults := true; lang := l;
                     started := false; stopRequested := false |}] ->
  language s = l ->
  ready s = true.
Proof.
  intros Hr Hh Hl. unfold ready, current. rewrite Hr, Hh, Hl.
  rewrite list_lookup_middle by reflexivity. cbn. rewrite Language_eqb_refl. reflexivity.
Qed.

(** The stop path of [toggleListening]. *)
Lemma toggleListening_stop host r s h :
  recognitionRef s = Some h -> isStartingRef s = false -> r_isListening r = true ->
  toggleListening host r s = (Normal tt, stopped h s).
Proof.
  intros Hr Hs Hl. unfold toggleListening.
  unfold bind at 1. unfold read at 1. unfold bind at 1. unfold read at 1.
  rewrite Hr, Hs, Hl. cbn [is_null orb negb].
  unfold try_catch. rewrite stopRecognition_eq, Hr. reflexivity.
Qed.

(** The resumed start leaves the bound object, the delays and the language,
    and ends showing listening or not initialized. *)
Lemma toggleListening_resumed_post s :
  let s' := exec toggleListening_resumed s in
  recognitionRef s' = recognitionRef s /\ timers s' = timers s
  /\ (isListening s' = true \/ isInitializedRef s' = false).
Proof.
  cbv zeta. destruct s as [li sp it la [h|] ini st hp cs ts al ce];
    unfold exec, toggleListening_resumed, try_catch, start_current, engine_start,
      bind, write, read, throw, caught, setIsListening; fields.
  - destruct (hp !! h) as [o|]; [destruct (started o)|]; fields; auto.
  - auto.
Qed.

Lemma consistent_mount host : capability host = true -> consistent (mount host).
Proof.
  intros Hc. unfold mount, exec. rewrite initializeRecognition_eq, Hc.
  repeat split; fields; try discriminate.
  intros r Hr. cbn in Hr. inversion Hr.
Qed.

Section Step.
Variable host : Host.
Hypothesis Hc : capability host = true.

Lemma consistent_Click s : consistent s -> consistent (dispatch host Click s).
Proof.
  intros (Hr & Hb & Ht). unfold dispatch, exec.
  destruct (recognitionRef s) as [h|] eqn:Er; [|congruence].
  destruct (isStartingRef s) eqn:Es.
  { rewrite toggleListening_guarded by exact Es. fields.
    repeat split; auto; congruence. }
  destruct (isListening s) eqn:El.
  - rewrite (toggleListening_stop host _ s h) by assumption.
    repeat split; fields; auto; try congruence; discriminate.
  - rewrite (toggleListening_start host _ s h) by assumption.
    rewrite Hc. destruct (isInitializedRef s); fields;
      (repeat split; fields; try congruence; try discriminate);
      intros r Hin; apply elem_of_app in Hin as [Hin|Hin]; auto;
      apply list_elem_of_singleton in Hin; discriminate.
Qed.

Lemma consistent_Select l s : consistent s -> consistent (dispatch host (Select l) s).
Proof.
  intros (Hr & Hb & Ht). unfold dispatch.
  destruct (recognitionRef s) as [h|] eqn:Er; [|congruence].
  destruct (isListening s) eqn:El.
  - assert (E : exec (handleLanguageChange host (render s) l) s =
                with_timers (fun ts => ts ++ [LanguageAfterDelay (render s)])
                  (stopped h (with_language l s)))
      by (unfold exec; rewrite (handleLanguageChange_listening host _ l s h);
          [reflexivity | exact El | exact Er]).
    rewrite E.
    assert (Ht' : forall r, LanguageAfterDelay r ∈ timers s ++ [LanguageAfterDelay (render s)]
                            -> r_isListening r = true).
    { intros r Hin. apply elem_of_app in Hin as [Hin|Hin]; auto.
      apply list_elem_of_singleton in Hin. injection Hin as ->. exact El. }
    destruct (Language_eqb l (language s)).
    + repeat split; fields; auto; try congruence; discriminate.
    + rewrite effect_eq, Hc. fields. rewrite Er. fields. rewrite Er.
      repeat split; fields; auto; try discriminate.
      intros _ _ _. eapply ready_fresh; fields; reflexivity.
  - assert (E : exec (handleLanguageChange host (render s) l) s = with_language l s)
      by (unfold exec; rewrite handleLanguageChange_idle; [reflexivity | exact El]).
    rewrite E. destruct (Language_eqb l (language s)) eqn:Eq.
    + apply Language_eqb_eq in Eq. subst l.
      apply (consistent_control s); [reflexivity | repeat split; auto; congruence].
    + rewrite effect_eq, Hc. fields. rewrite Er. fields. rewrite Er.
      repeat split; fields; auto; try discriminate.
      intros _ _ _. eapply ready_fresh; fields; reflexivity.
Qed.

Lemma consistent_Elapse i s : consistent s -> consistent (dispatch host (Elapse i) s).
Proof.
  intros (Hr & Hb & Ht). unfold dispatch.
  destruct (timers s !! i) as [k|] eqn:Ek; [|repeat split; assumption].
  assert (Ht' : forall r, LanguageAfterDelay r ∈ delete i (timers s)
                          -> r_isListening r = true)
    by (intros r Hin; apply Ht; eapply list_elem_of_delete_inv; exact Hin).
  destruct k as [|r]; cbn [resume].
  - destruct (toggleListening_resumed_post (with_timers (delete i) s))
      as (E1 & E2 & E3).
    repeat split.
    + rewrite E1. exact Hr.
    + intros Hi _ Hl. destruct E3; congruence.
    + rewrite E2. exact Ht'.
  - assert (Hl : r_isListening r = true)
      by (apply Ht; eapply list_elem_of_lookup_2; exact Ek).
    destruct (recognitionRef s) as [h|] eqn:Er; [|congruence].
    rewrite (handleLanguageChange_resumed_listening host r _ h);
      [| exact Hc | exact Hl | exact Er].
    repeat split; fields; auto; discriminate.
Qed.

Lemma consistent_dispatch e s : consistent s -> consistent (dispatch host e s).
Proof.
  intros H. destruct e.
  - apply consistent_Click, H.
  - apply consistent_Select, H.
  - apply consistent_Elapse, H.
  - apply (consistent_control s); [|exact H].
    unfold dispatch, exec, onresult.
    destruct (truthy (join " " (finals (results ev)))); reflexivity.
  - destruct H as (Hr & Hb & Ht). repeat split; auto; discriminate.
  - destruct H as (Hr & Hb & Ht). repeat split; auto; discriminate.
  - destruct H as (Hr & Hb & Ht). unfold dispatch, exec.
    rewrite stopRecognition_eq.
    destruct (recognitionRef s) as [h|] eqn:Er; [|congruence].
    repeat split; fields; auto; try congruence; discriminate.
Qed.

Lemma consistent_run es : consistent (run host es (mount host)).
Proof.
  induction es as [|e es IH] using rev_ind.
  - apply consistent_mount, Hc.
  - rewrite run_app. apply consistent_dispatch, IH.
Qed.

End Step.

(** ** Changing the language while idle, then starting *)

(** The select on a session that does not show listening stores the language
    and touches neither the flags shown nor the guard. *)
Lemma select_while_idle host l s :
  isListening s = false ->
  let s1 := dispatch host (Select l) s in
  language s1 = l /\ isListening s1 = false /\ isStartingRef s1 = isStartingRef s
  /\ timers s1 = timers s
  /\ spokenText s1 = spokenText s /\ interimText s1 = interimText s.
Proof.
  intros El. cbv zeta. unfold dispatch.
  assert (E : exec (handleLanguageChange host (render s) l) s = with_language l s)
    by (unfold exec; rewrite handleLanguageChange_idle; [reflexivity | exact El]).
  rewrite E. destruct (Language_eqb l (language s)).
  - repeat split; auto.
  - rewrite effect_eq. fields.
    destruct (recognitionRef s) as [h|] eqn:Er, (capability host);
      fields; rewrite ?Er; fields; repeat split; auto.
Qed.

Lemma ready_inv s h :
  recognitionRef s = Some h -> ready s = true ->
  exists o, heap s !! h = Some o /\ started o = false /\ lang o = language s
            /\ continuous o = true /\ interimResults o = true.
Proof.
  unfold ready, current. intros ->. destruct (heap s !! h) as [o|]; [|discriminate].
  intros H. exists o.
  apply andb_prop in H as [H H4]. apply andb_prop in H as [H H3].
  apply andb_prop in H as [H1 H2]. apply negb_true_iff in H1.
  apply Language_eqb_eq in H2. auto.
Qed.

(** C8. On a host with the capability, in any session the page has reached
    that neither shows listening nor holds the guard: the select stores the
    chosen language, whatever it is, and the next press followed by its delay
    starts the bound object, which is configured for that language, for
    continuous recognition with interim results; the page then shows
    listening. *)
Theorem language_then_toggle_binds host (L : Language) (es : list Event) :
  capability host = true ->
  isListening (run host es (mount host)) = false ->
  isStartingRef (run host es (mount host)) = false ->
  let s := run host es (mount host) in
  let s1 := dispatch host (Select L) s in
  let s2 := run host [Click; Elapse (length (timers s1))] s1 in
  language s1 = L
  /\ language s2 = L
  /\ isListening s2 = true
  /\ exists h o,
       recognitionRef s2 = Some h /\ heap s2 !! h = Some o
       /\ lang o = L /\ started o = true
       /\ continuous o = true /\ interimResults o = true
       /\ last (calls s2) = Some (Start h).
Proof.
  intros Hc El Es. cbv zeta.
  set (s := run host es (mount host)) in *.
  assert (Hs : consistent s) by (apply consistent_run, Hc).
  destruct (select_while_idle host L s El) as (H1 & H2 & H3 & _).
  pose proof (consistent_Select host Hc L s Hs) as (Hr & Hb & _).
  set (s1 := dispatch host (Select L) s) in *.
  destruct (recognitionRef s1) as [h|] eqn:Er; [|congruence].
  rewrite Es in H3.
  destruct (press_and_wait host s1 h Hc Er H3 H2) as (P1 & _ & P3 & _ & _ & _ & P7).
  { intros Hi. apply ready_inv; auto. }
  rewrite P3, H1. repeat split; auto.
  destruct P7 as (h' & o' & Q). rewrite H1 in Q. exists h', o'. exact Q.
Qed.

Lemma language_then_toggle_witness :
  let s := run chrome [Click; Elapse 0; EngineEnd 0] (mount chrome) in
  let s1 := dispatch chrome (Select es_ES) s in
  let s2 := run chrome [Click; Elapse (length (timers s1))] s1 in
  (capability chrome = true /\ isListening s = false /\ isStartingRef s = false)
  /\ language s1 = es_ES
  /\ language s2 = es_ES
  /\ isListening s2 = true
  /\ exists h o,
       recognitionRef s2 = Some h /\ heap s2 !! h = Some o
       /\ lang o = es_ES /\ started o = true
       /\ continuous o = true /\ interimResults o = true
       /\ last (calls s2) = Some (Start h).
Proof.
  cbv zeta. split; [repeat split|].
  apply (language_then_toggle_binds chrome es_ES [Click; Elapse 0; EngineEnd 0]);
    reflexivity.
Defined.

(** ** The older component, [SpeechToLetter] *)

Lemma join_empty_cons x xs : join "" (x :: xs) = (x ++ join "" xs)%string.
Proof.
  destruct xs as [|y ys]; cbn [join String.concat].
  - symmetry. apply append_nil_r.
  - reflexivity.
Qed.

Lemma finals_cons r rs :
  finals (r :: rs) = if isFinal r then text r :: finals rs else finals rs.
Proof. unfold finals. cbn [List.filter]. destruct (isFinal r); reflexivity. Qed.

Lemma interims_cons r rs :
  interims (r :: rs) = if isFinal r then interims rs else text r :: interims rs.
Proof. unfold interims. cbn [List.filter]. destruct (isFinal r); reflexivity. Qed.

Lemma SpeechToLetter_loop rs : forall final interim,
  SpeechToLetter.loop rs final interim =
  ((final ++ join "" (map (fun t => (t ++ " ")%string) (finals rs)))%string,
   (interim ++ join "" (interims rs))%string).
Proof.
  induction rs as [|r rs IH]; intros final interim; cbn [SpeechToLetter.loop].
  - cbn. rewrite !append_nil_r. reflexivity.
  - rewrite finals_cons, interims_cons. destruct (isFinal r); rewrite IH.
    + cbn [map]. rewrite join_empty_cons, !append_assoc. reflexivity.
    + rewrite join_empty_cons, append_assoc. reflexivity.
Qed.

Lemma spaced_join ts :
  join "" (map (fun t => (t ++ " ")%string) ts) =
  match ts with [] => "" | _ :: _ => (join " " ts ++ " ")%string end.
Proof.
  induction ts as [|t ts IH]; [reflexivity|].
  cbn [map]. rewrite join_empty_cons, IH.
  destruct ts as [|u ts].
  - rewrite append_nil_r. reflexivity.
  - unfold join. cbn [String.concat]. rewrite !append_assoc. reflexivity.
Qed.

Lemma existsb_finals rs :
  existsb isFinal rs = match finals rs with [] => false | _ :: _ => true end.
Proof.
  unfold finals. induction rs as [|r rs IH]; [reflexivity|].
  cbn [existsb List.filter]. destruct (isFinal r); [reflexivity | exact IH].
Qed.

(** In [SpeechToLetter] the window of results from [resultIndex] on is the
    batch, and any final result in it commits: the joined final text and one
    separator are appended and the preview is cleared, also when the only
    final transcript is empty. *)
Lemma SpeechToLetter_onresult (ev : SpeechRecognitionEvent) (committed preview : string) :
  let window := drop (resultIndex ev) (results ev) in
  SpeechToLetter.onresult ev (committed, preview) =
  if existsb isFinal window
  then ((committed ++ join " " (finals window) ++ " ")%string, "")
  else (committed, join "" (interims window)).
Proof.
  cbv zeta. unfold SpeechToLetter.onresult.
  rewrite SpeechToLetter_loop, spaced_join, existsb_finals. cbn [fst].
  destruct (finals (drop (resultIndex ev) (results ev))) as [|t ts].
  - reflexivity.
  - cbn [append]. rewrite truthy_append_r by reflexivity. reflexivity.
Qed.

(** * Further properties of [SpeechToText] *)

(** ** No handler lets an exception escape *)

Lemma try_catch_caught (m : JS unit) s : fst (try_catch m caught s) = Normal tt.
Proof.
  unfold try_catch. destruct (m s) as [[[]|e] s']; reflexivity.
Qed.

(** X1. Whatever the session and the render, the two user handlers, their
    continuations after the delay, [stopRecognition] and
    [initializeRecognition] end normally: a refused [start()] or [stop()]
    never reaches the caller. *)
Theorem handlers_end_normally host (s : Session) :
  (forall r, fst (toggleListening host r s) = Normal tt)
  /\ fst (toggleListening_resumed s) = Normal tt
  /\ (forall r l, fst (handleLanguageChange host r l s) = Normal tt)
  /\ (forall r, fst (handleLanguageChange_resumed host r s) = Normal tt)
  /\ fst (stopRecognition host s) = Normal tt
  /\ (forall l, fst (initializeRecognition host l s) = Normal tt).
Proof.
  repeat split.
  - intros r. unfold toggleListening. unfold bind at 1, read at 1.
    unfold bind at 1, read at 1.
    destruct (is_null (recognitionRef s) || isStartingRef s);
      [reflexivity | apply try_catch_caught].
  - apply try_catch_caught.
  - intros r l. unfold handleLanguageChange.
    unfold bind at 1, setLanguage, write at 1. unfold bind at 1, read at 1.
    destruct (r_isListening r && negb (is_null (recognitionRef (with_language l s))));
      [apply try_catch_caught | reflexivity].
  - intros r. apply try_catch_caught.
  - rewrite stopRecognition_eq. reflexivity.
  - intros l. rewrite initializeRecognition_eq. reflexivity.
Qed.

(** ** What the other tasks do to the language and to the preview *)

Lemma dispatch_language host e s :
  language (dispatch host e s) = match e with Select l => l | _ => language s end.
Proof.
  destruct e.
  - apply (keeps_exec language). unfold_handlers; keeps_tac.
  - destruct (isListening s) eqn:El.
    + destruct (recognitionRef s) as [h|] eqn:Er.
      * destruct (select_while_listening host l s h El Er) as (H & _). exact H.
      * unfold dispatch. assert (E : exec (handleLanguageChange host (render s) l) s = with_language l s).
        { unfold exec, handleLanguageChange, bind, setLanguage, write, read. fields.
          rewrite Er, El. reflexivity. }
        rewrite E. destruct (Language_eqb l (language s)); [reflexivity|].
        rewrite effect_eq. fields. rewrite Er. fields. rewrite Er.
        destruct (capability host); reflexivity.
    + destruct (select_while_idle host l s El) as (H & _). exact H.
  - unfold dispatch. destruct (timers s !! i) as [k|]; [|reflexivity].
    rewrite (keeps_exec language); [reflexivity|].
    destruct k; unfold_handlers; keeps_tac.
  - apply (keeps_exec language). unfold onresult.
    destruct (truthy _); unfold setSpokenText, setInterimText; keeps_tac.
  - unfold dispatch.
    rewrite (keeps_exec language); [reflexivity | unfold_handlers; keeps_tac].
  - unfold dispatch.
    rewrite (keeps_exec language); [reflexivity | unfold_handlers; keeps_tac].
  - apply (keeps_exec language). unfold_handlers; keeps_tac.
Qed.

(** X2. After any sequence of tasks the language shown is the one of the last
    select, and the initial one when nothing was selected; no engine event,
    press or elapsed delay changes it. *)
Theorem language_is_last_selected host (es : list Event) (s : Session) :
  language (run host es s) = last_selected es (language s).
Proof.
  revert s. induction es as [|e es IH]; intros s; [reflexivity|].
  rewrite run_cons, IH, dispatch_language. unfold last_selected. cbn [fold_left].
  destruct e; reflexivity.
Qed.

(** X3. Only a result event writes the preview: a press, a select, an elapsed
    delay, an end or error event and the cleanup leave [interimText] as it
    was, so a draft stays on the page after the recognition has stopped. *)
Theorem preview_written_by_results_only host (e : Event) (s : Session) :
  (exists ev, e = EngineResult ev) \/ interimText (dispatch host e s) = interimText s.
Proof.
  destruct e; [right|right|right|left; eauto|right|right|right]; unfold dispatch.
  - apply toggleListening_keeps_interimText.
  - destruct (Language_eqb l (language s)).
    + apply handleLanguageChange_keeps_interimText.
    + rewrite (keeps_exec interimText).
      * apply handleLanguageChange_keeps_interimText.
      * apply keeps_bind; intros;
          [apply stopRecognition_keeps_interimText
          |apply initializeRecognition_keeps_interimText].
  - destruct (timers s !! i); [|reflexivity].
    rewrite (keeps_exec interimText) by apply resume_keeps_interimText. reflexivity.
  - rewrite (keeps_exec interimText); [reflexivity | unfold_handlers; keeps_tac].
  - rewrite (keeps_exec interimText); [reflexivity | unfold_handlers; keeps_tac].
  - apply stopRecognition_keeps_interimText.
Qed.

(** ** The engine's objects *)

Lemma request_stop_lookup h hp j :
  request_stop h hp !! j =
  match hp !! j with
  | Some o => Some (if bool_decide (h = j) && started o then mark_stopRequested o else o)
  | None => None
  end.
Proof.
  unfold request_stop. destruct (hp !! h) as [oh|] eqn:Eh.
  - destruct (started oh) eqn:Es.
    + rewrite list_lookup_alter. destruct (decide (h = j)) as [->|Hne].
      * rewrite Eh. cbn. rewrite bool_decide_eq_true_2 by reflexivity.
        rewrite Es. reflexivity.
      * rewrite bool_decide_eq_false_2 by exact Hne.
        destruct (hp !! j); reflexivity.
    + destruct (hp !! j) as [o|] eqn:Ej; [|reflexivity].
      destruct (bool_decide (h = j)) eqn:Eb; [|reflexivity].
      apply bool_decide_eq_true_1 in Eb. subst j.
      rewrite Eh in Ej. injection Ej as <-. rewrite Es. reflexivity.
  - destruct (hp !! j) as [o|] eqn:Ej; [|reflexivity].
    destruct (bool_decide (h = j)) eqn:Eb; [|reflexivity].
    apply bool_decide_eq_true_1 in Eb. subst j. congruence.
Qed.

Lemma tidy_request_stop h hp :
  in_range (Some h) hp -> configured hp -> live_is_bound (Some h) hp ->
  in_range (Some h) (request_stop h hp)
  /\ configured (request_stop h hp)
  /\ live_is_bound (Some h) (request_stop h hp)
  /\ all_requested (request_stop h hp).
Proof.
  intros Hr Hc Hl. repeat split.
  - intros h' E. rewrite request_stop_length. apply Hr, E.
  - rewrite request_stop_lookup in H. destruct (hp !! j) as [o'|] eqn:Ej; [|discriminate].
    injection H as <-. destruct (Hc j o' Ej) as [H1 _].
    destruct (bool_decide (h = j) && started o'); exact H1.
  - rewrite request_stop_lookup in H. destruct (hp !! j) as [o'|] eqn:Ej; [|discriminate].
    injection H as <-. destruct (Hc j o' Ej) as [_ H2].
    destruct (bool_decide (h = j) && started o'); exact H2.
  - intros j o H Hs. rewrite request_stop_lookup in H.
    destruct (hp !! j) as [o'|] eqn:Ej; [|discriminate]. injection H as <-.
    destruct (bool_decide (h = j) && started o') eqn:Eb.
    + right. reflexivity.
    + apply (Hl j o' Ej Hs).
  - intros j o H Hs. rewrite request_stop_lookup in H.
    destruct (hp !! j) as [o'|] eqn:Ej; [|discriminate]. injection H as <-.
    destruct (bool_decide (h = j) && started o') eqn:Eb; [reflexivity|].
    destruct (Hl j o' Ej Hs) as [E|E]; [|exact E].
    injection E as ->. rewrite bool_decide_eq_true_2 in Eb by reflexivity.
    cbn in Eb. congruence.
Qed.

Lemma tidy_fresh l hp :
  configured hp -> all_requested hp ->
  let o := {| continuous := true; interimResults := true; lang := l;
              started := false; stopRequested := false |} in
  in_range (Some (length hp)) (hp ++ [o])
  /\ configured (hp ++ [o])
  /\ live_is_bound (Some (length hp)) (hp ++ [o]).
Proof.
  intros Hc Ha o. repeat split.
  - intros h E. injection E as <-. rewrite length_app. cbn. lia.
  - apply lookup_snoc_Some in H as [[_ H]|[_ <-]]; [apply (Hc j o0 H) | reflexivity].
  - apply lookup_snoc_Some in H as [[_ H]|[_ <-]]; [apply (Hc j o0 H) | reflexivity].
  - intros j o' H Hs. apply lookup_snoc_Some in H as [[_ H]|[_ <-]].
    + right. apply (Ha j o' H Hs).
    + discriminate.
Qed.

Lemma tidy_started h hp :
  in_range (Some h) hp -> configured hp -> live_is_bound (Some h) hp ->
  in_range (Some h) (alter (mark_started true) h hp)
  /\ configured (alter (mark_started true) h hp)
  /\ live_is_bound (Some h) (alter (mark_started true) h hp).
Proof.
  intros Hr Hc Hl. repeat split.
  - intros h' E. rewrite length_alter. apply Hr, E.
  - rewrite list_lookup_alter in H. destruct (decide (h = j)) as [->|];
      [|apply (Hc j o H)].
    destruct (hp !! j) as [o'|] eqn:Ej; [|discriminate]. injection H as <-.
    apply (Hc j o' Ej).
  - rewrite list_lookup_alter in H. destruct (decide (h = j)) as [->|];
      [|apply (Hc j o H)].
    destruct (hp !! j) as [o'|] eqn:Ej; [|discriminate]. injection H as <-.
    apply (Hc j o' Ej).
  - intros j o H Hs. rewrite list_lookup_alter in H.
    destruct (decide (h = j)) as [->|]; [left; reflexivity | apply (Hl j o H Hs)].
Qed.

Lemma tidy_ended ref h hp :
  in_range ref hp -> configured hp -> live_is_bound ref hp ->
  in_range ref (alter ended h hp)
  /\ configured (alter ended h hp)
  /\ live_is_bound ref (alter ended h hp).
Proof.
  intros Hr Hc Hl. repeat split.
  - intros h' E. rewrite length_alter. apply Hr, E.
  - rewrite list_lookup_alter in H. destruct (decide (h = j)) as [->|];
      [|apply (Hc j o H)].
    destruct (hp !! j) as [o'|] eqn:Ej; [|discriminate]. injection H as <-.
    apply (Hc j o' Ej).
  - rewrite list_lookup_alter in H. destruct (decide (h = j)) as [->|];
      [|apply (Hc j o H)].
    destruct (hp !! j) as [o'|] eqn:Ej; [|discriminate]. injection H as <-.
    apply (Hc j o' Ej).
  - intros j o H Hs. rewrite list_lookup_alter in H.
    destruct (decide (h = j)) as [->|]; [|apply (Hl j o H Hs)].
    destruct (hp !! j) as [o'|]; [|discriminate]. injection H as <-. discriminate.
Qed.

Lemma tidy_same s s' :
  recognitionRef s' = recognitionRef s -> heap s' = heap s -> tidy s -> tidy s'.
Proof. unfold tidy. intros -> ->. auto. Qed.

Lemma tidy_stopped s h :
  recognitionRef s = Some h -> tidy s ->
  tidy (stopped h s) /\ all_requested (heap (stopped h s)).
Proof.
  unfold tidy. intros Er (H1 & H2 & H3). fields. rewrite Er in *.
  destruct (tidy_request_stop h (heap s) H1 H2 H3) as (A & B & C & D). auto.
Qed.

Lemma tidy_rebound l s h :
  recognitionRef s = Some h -> tidy s -> tidy (bound l (stopped h s)).
Proof.
  intros Er Ht. destruct (tidy_stopped s h Er Ht) as ((_ & H2 & _) & Ha).
  unfold tidy. fields.
  apply tidy_fresh; [exact H2 | exact Ha].
Qed.

Lemma tidy_start s h :
  recognitionRef s = Some h -> tidy s ->
  tidy (with_heap (alter (mark_started true) h) s).
Proof.
  unfold tidy. intros Er (H1 & H2 & H3). fields. rewrite Er in *.
  apply tidy_started; assumption.
Qed.

(** The resumed start changes the objects only by starting the bound one. *)
Lemma toggleListening_resumed_heap s :
  let s' := exec toggleListening_resumed s in
  recognitionRef s' = recognitionRef s
  /\ (heap s' = heap s
      \/ exists h, recognitionRef s = Some h
                   /\ heap s' = alter (mark_started true) h (heap s)).
Proof.
  cbv zeta. destruct s as [li sp it la [h|] ini st hp cs ts al ce];
    unfold exec, toggleListening_resumed, try_catch, start_current, engine_start,
      bind, write, read, throw, caught, setIsListening; fields.
  - destruct (hp !! h) as [o|]; [destruct (started o)|]; fields; eauto.
  - auto.
Qed.

Lemma tidy_mount host : tidy (mount host).
Proof.
  unfold mount, exec. rewrite initializeRecognition_eq.
  destruct (capability host).
  - unfold tidy. fields. apply (tidy_fresh en_US []); intros j o H; inversion H.
  - repeat split; fields; try discriminate; intros j o H; inversion H.
Qed.

Section Tidy.
Variable host : Host.
Hypothesis Hc : capability host = true.

Lemma tidy_dispatch e s : consistent s -> tidy s -> tidy (dispatch host e s).
Proof.
  intros (Hr & _ & Hp) Ht.
  destruct (recognitionRef s) as [h|] eqn:Er; [clear Hr|congruence].
  destruct e; unfold dispatch.
  - unfold exec. destruct (isStartingRef s) eqn:Es.
    { rewrite toggleListening_guarded by exact Es. exact Ht. }
    destruct (isListening s) eqn:El.
    + rewrite (toggleListening_stop host _ s h) by assumption.
      apply tidy_stopped; assumption.
    + rewrite (toggleListening_start host _ s h) by assumption.
      rewrite Hc. destruct (isInitializedRef s); fields.
      * apply (tidy_same s); [reflexivity | reflexivity | exact Ht].
      * apply (tidy_same (bound (language s) (stopped h s)));
          [reflexivity | reflexivity | apply tidy_rebound; assumption].
  - assert (E : exists s1, exec (handleLanguageChange host (render s) l) s = s1
                  /\ recognitionRef s1 = Some h /\ tidy s1).
    { destruct (isListening s) eqn:El.
      - exists (with_timers (fun ts => ts ++ [LanguageAfterDelay (render s)])
                  (stopped h (with_language l s))).
        split; [unfold exec; rewrite (handleLanguageChange_listening host _ l s h);
                [reflexivity | exact El | exact Er]|].
        split; [exact Er|].
        apply (tidy_same (stopped h s)); [reflexivity | reflexivity |].
        apply tidy_stopped; assumption.
      - exists (with_language l s).
        split; [unfold exec; rewrite handleLanguageChange_idle;
                [reflexivity | exact El]|].
        split; [exact Er|]. apply (tidy_same s); [reflexivity | reflexivity | exact Ht]. }
    destruct E as (s1 & -> & Er1 & Ht1).
    destruct (Language_eqb l (language s)); [exact Ht1|].
    rewrite effect_eq, Hc. cbv zeta. rewrite Er1.
    change (recognitionRef (stopped h s1)) with (recognitionRef s1). rewrite Er1.
    apply tidy_rebound; [exact Er1|]. apply tidy_stopped; assumption.
  - destruct (timers s !! i) as [k|] eqn:Ek; [|exact Ht].
    assert (Ht' : tidy (with_timers (delete i) s))
      by (apply (tidy_same s); [reflexivity | reflexivity | exact Ht]).
    destruct k as [|r]; cbn [resume].
    + destruct (toggleListening_resumed_heap (with_timers (delete i) s))
        as (E1 & [E2|(h' & E2 & E3)]).
      * apply (tidy_same (with_timers (delete i) s)); assumption.
      * apply (tidy_same (with_heap (alter (mark_started true) h') (with_timers (delete i) s)));
          [exact E1 | exact E3 | apply tidy_start; assumption].
    + assert (Hl : r_isListening r = true)
        by (apply Hp; eapply list_elem_of_lookup_2; exact Ek).
      rewrite (handleLanguageChange_resumed_listening host r _ h);
        [| exact Hc | exact Hl | exact Er].
      set (s2 := bound (r_language r) (stopped h (with_timers (delete i) s))).
      assert (Ht2 : tidy s2)
        by (apply tidy_rebound; [exact Er | exact Ht']).
      apply (tidy_same (with_heap (alter (mark_started true) (length (heap s))) s2));
        [reflexivity | reflexivity |].
      apply tidy_start; [|exact Ht2].
      subst s2. fields. rewrite request_stop_length. reflexivity.
  - apply (tidy_same s); [| |exact Ht]; unfold exec, onresult;
      destruct (truthy (join " " (finals (results ev)))); reflexivity.
  - unfold tidy in *. destruct Ht as (H1 & H2 & H3).
    change (recognitionRef (exec onend (with_heap (alter ended h0) s)))
      with (recognitionRef s).
    change (heap (exec onend (with_heap (alter ended h0) s)))
      with (alter ended h0 (heap s)).
    apply tidy_ended; assumption.
  - unfold tidy in *. destruct Ht as (H1 & H2 & H3).
    change (recognitionRef (exec onerror (with_heap (alter ended h0) s)))
      with (recognitionRef s).
    change (heap (exec onerror (with_heap (alter ended h0) s)))
      with (alter ended h0 (heap s)).
    apply tidy_ended; assumption.
  - unfold exec. rewrite stopRecognition_eq, Er. apply tidy_stopped; assumption.
Qed.

Lemma tidy_run es : tidy (run host es (mount host)).
Proof.
  induction es as [|e es IH] using rev_ind.
  - apply tidy_mount.
  - rewrite run_app. apply tidy_dispatch; [apply consistent_run, Hc | exact IH].
Qed.

End Tidy.

(** On a host without the capability the page never touches the engine. *)
Lemma unsupported_inert host (es : list Event) :
  capability host = false ->
  let s := run host es (mount host) in
  recognitionRef s = None /\ timers s = [] /\ isListening s = false
  /\ isStartingRef s = false /\ isInitializedRef s = false
  /\ heap s = [] /\ calls s = [] /\ 1 <= alerts s.
Proof.
  intros Hc. induction es as [|e es IH] using rev_ind.
  - cbn [run fold_left]. unfold mount, exec.
    rewrite initializeRecognition_eq, Hc. repeat split. cbn. lia.
  - rewrite run_app. cbn [run fold_left]. cbv zeta in IH.
    destruct (run host es (mount host)) as [li sp it la rf ini st hp cs ts al ce].
    cbn in IH. destruct IH as (-> & -> & -> & -> & -> & -> & -> & Hal).
    destruct e; unfold dispatch, exec, render;
      rewrite ?toggleListening_unbound by reflexivity;
      try (repeat split; solve [reflexivity | exact Hal]).
    + unfold handleLanguageChange, setLanguage, bind, write, read; cbn.
      destruct (Language_eqb l la); [repeat split; exact Hal|].
      rewrite initializeRecognition_eq, Hc. repeat split. cbn. lia.
    + unfold onresult. destruct (truthy _); repeat split; exact Hal.
Qed.

(** X4. In every session the page reaches, on any host: the bound index points
    at an object; every object ever constructed is configured for continuous
    recognition with interim results; and an object that is started is the
    bound one or has been asked to stop, so at most one recognition runs
    without a pending stop request. *)
Theorem reachable_engine_is_tidy host (es : list Event) :
  let s := run host es (mount host) in
  (forall h, recognitionRef s = Some h -> h < length (heap s))
  /\ (forall j o, heap s !! j = Some o ->
                  continuous o = true /\ interimResults o = true)
  /\ (forall j o, heap s !! j = Some o -> started o = true ->
                  recognitionRef s = Some j \/ stopRequested o = true)
  /\ (forall j1 j2 o1 o2,
        heap s !! j1 = Some o1 -> heap s !! j2 = Some o2 ->
        started o1 = true -> started o2 = true ->
        stopRequested o1 = false -> stopRequested o2 = false -> j1 = j2).
Proof.
  cbv zeta. assert (Ht : tidy (run host es (mount host))).
  { destruct (capability host) eqn:Hc.
    - apply tidy_run, Hc.
    - destruct (unsupported_inert host es Hc) as (Hr & _ & _ & _ & _ & Hh & _).
      unfold tidy. rewrite Hr, Hh.
      repeat split; try discriminate; intros j o H; inversion H. }
  destruct Ht as (H1 & H2 & H3).
  split; [exact H1|]. split; [exact H2|]. split; [exact H3|].
  intros j1 j2 o1 o2 L1 L2 S1 S2 R1 R2.
  destruct (H3 j1 o1 L1 S1) as [E1|E1]; [|congruence].
  destruct (H3 j2 o2 L2 S2) as [E2|E2]; [|congruence].
  congruence.
Qed.

(** X5. On a host with the capability, in every session the page reaches an
    object is bound; and when the session is initialized, does not show
    listening and the guard is free, the bound object is not started and is
    configured for the language the page shows. *)
Theorem idle_initialized_session_is_ready host (es : list Event) :
  capability host = true ->
  let s := run host es (mount host) in
  exists h,
    recognitionRef s = Some h
    /\ (isInitializedRef s = true -> isStartingRef s = false -> isListening s = false ->
        exists o, heap s !! h = Some o /\ started o = false /\ lang o = language s).
Proof.
  intros Hc. cbv zeta.
  destruct (consistent_run host Hc es) as (Hr & Hb & _).
  destruct (recognitionRef (run host es (mount host))) as [h|] eqn:Er; [|congruence].
  exists h. split; [reflexivity|]. intros Hi Hs Hl.
  destruct (ready_inv _ h Er (Hb Hi Hs Hl)) as (o & H1 & H2 & H3 & _).
  exists o. auto.
Qed.

Lemma idle_initialized_session_is_ready_witness :
  capability chrome = true
  /\ exists h,
       recognitionRef (run chrome [Select es_ES] (mount chrome)) = Some h
       /\ (isInitializedRef (run chrome [Select es_ES] (mount chrome)) = true ->
           isStartingRef (run chrome [Select es_ES] (mount chrome)) = false ->
           isListening (run chrome [Select es_ES] (mount chrome)) = false ->
           exists o, heap (run chrome [Select es_ES] (mount chrome)) !! h = Some o
                     /\ started o = false
                     /\ lang o = language (run chrome [Select es_ES] (mount chrome))).
Proof.
  split; [reflexivity|].
  apply (idle_initialized_session_is_ready chrome [Select es_ES]). reflexivity.
Defined.

(** X6. On a host without the capability the page is inert in every session
    it reaches: nothing is bound, no object is constructed and no engine call
    is made, no delay is parked, the page never shows listening, the guard is
    never set, at least the alert of the first render was raised, and a press
    changes nothing. *)
Theorem unsupported_page_is_inert host (es : list Event) :
  capability host = false ->
  let s := run host es (mount host) in
  recognitionRef s = None /\ heap s = [] /\ calls s = [] /\ timers s = []
  /\ isListening s = false /\ isStartingRef s = false
  /\ 1 <= alerts s
  /\ dispatch host Click s = s.
Proof.
  intros Hc. cbv zeta.
  destruct (unsupported_inert host es Hc) as (H1 & H2 & H3 & H4 & H5 & H6 & H7 & H8).
  repeat split; auto.
  unfold dispatch, exec. rewrite toggleListening_unbound by exact H1. reflexivity.
Qed.

Lemma unsupported_page_is_inert_witness :
  capability bare = false
  /\ let s := run bare [Click; Select es_ES; Click] (mount bare) in
     recognitionRef s = None /\ heap s = [] /\ calls s = [] /\ timers s = []
     /\ isListening s = false /\ isStartingRef s = false
     /\ 1 <= alerts s
     /\ dispatch bare Click s = s.
Proof.
  split; [reflexivity|].
  apply (unsupported_page_is_inert bare [Click; Select es_ES; Click]). reflexivity.
Defined.

(** ** Restarting and stopping from the button *)

(** A press and its delay on a bound session that is not initialized: the
    bound object is asked to stop, a new one is constructed for the language
    shown, bound and started. *)
Lemma press_uninitialized host s h :
  capability host = true ->
  recognitionRef s = Some h -> isStartingRef s = false -> isListening s = false ->
  isInitializedRef s = false ->
  let n := length (heap s) in
  let s2 := run host [Click; Elapse (length (timers s))] s in
  isListening s2 = true
  /\ isStartingRef s2 = true
  /\ recognitionRef s2 = Some n
  /\ (exists o, heap s2 !! n = Some o /\ started o = true /\ lang o = language s)
  /\ calls s2 = calls s ++ [Stop h; New n (language s); Start n]
  /\ timers s2 = timers s.
Proof.
  intros Hc Hr Hs Hl Hi. cbv zeta. cbn [run fold_left].
  assert (E1 : dispatch host Click s = snd (toggleListening host (render s) s))
    by reflexivity.
  rewrite E1, (toggleListening_start host (render s) s h) by assumption.
  cbn [snd]. rewrite Hc, Hi.
  set (s' := stopped h (with_isStartingRef true s)).
  change (length (timers s)) with (length (timers (bound (r_language (render s)) s'))).
  rewrite dispatch_Elapse_last. cbn [resume].
  set (o := {| continuous := true; interimResults := true; lang := language s;
               started := false; stopRequested := false |}).
  rewrite (toggleListening_resumed_ok _ (length (heap s')) o);
    [| reflexivity | fields; apply list_lookup_middle; reflexivity | reflexivity].
  subst s'. fields.
  rewrite (delete_middle (timers s) [] ToggleAfterDelay), app_nil_r.
  rewrite request_stop_length. repeat split; auto.
  - exists (mark_started true o).
    rewrite list_lookup_alter_eq.
    rewrite (list_lookup_middle (request_stop h (heap s)) [])
      by (symmetry; apply request_stop_length).
    repeat split.
  - rewrite <- !app_assoc. reflexivity.
Qed.

(** X7. After an end or an error event of the engine, on a host with the
    capability, the next press followed by its delay brings the page back to
    listening on a new object: the object bound before is asked to stop, a
    new one is constructed for the language shown, bound and started, in this
    order and with no other engine call. *)
Theorem press_after_end_or_error_rebinds host (s : Session) (h j : nat) (e : Event) :
  capability host = true -> recognitionRef s = Some h ->
  e = EngineEnd j \/ e = EngineError j ->
  let n := length (heap s) in
  let s2 := run host [e; Click; Elapse (length (timers s))] s in
  isListening s2 = true
  /\ recognitionRef s2 = Some n
  /\ (exists o, heap s2 !! n = Some o /\ started o = true /\ lang o = language s)
  /\ calls s2 = calls s ++ [Stop h; New n (language s); Start n].
Proof.
  intros Hc Hr He. cbv zeta. rewrite run_cons.
  set (s1 := dispatch host e s).
  assert (F : recognitionRef s1 = Some h /\ isStartingRef s1 = false
              /\ isListening s1 = false /\ isInitializedRef s1 = false
              /\ length (heap s1) = length (heap s) /\ language s1 = language s
              /\ calls s1 = calls s /\ timers s1 = timers s).
  { subst s1. destruct He as [-> | ->];
      (repeat split; [exact Hr | apply length_alter]). }
  destruct F as (F1 & F2 & F3 & F4 & F5 & F6 & F7 & F8).
  destruct (press_uninitialized host s1 h Hc F1 F2 F3 F4) as (P1 & _ & P3 & P4 & P5 & _).
  rewrite F5, F6, F7, F8 in *. auto.
Qed.

Lemma press_after_end_or_error_rebinds_witness :
  let s := listening chrome in
  let s2 := run chrome [EngineError 0; Click; Elapse 0] s in
  (capability chrome = true /\ recognitionRef s = Some 0)
  /\ isListening s2 = true
  /\ recognitionRef s2 = Some 1
  /\ (exists o, heap s2 !! 1 = Some o /\ started o = true /\ lang o = language s)
  /\ calls s2 = calls s ++ [Stop 0; New 1 (language s); Start 1].
Proof.
  cbv zeta. split; [repeat split|].
  apply (press_after_end_or_error_rebinds chrome (listening chrome) 0 0 (EngineError 0));
    [reflexivity | reflexivity | right; reflexivity].
Defined.

(** X8. When the delay of a press elapses on a bound object that is already
    started, the engine refuses the second [start()] and the [catch] block
    runs: one error is logged, the page stops showing listening, the guard and
    the initialized flag are cleared, while no [stop()] is issued and the
    object stays started. *)
Theorem refused_start_resets_the_page host (s : Session) (i h : nat)
    (o : SpeechRecognition) :
  timers s !! i = Some ToggleAfterDelay ->
  recognitionRef s = Some h -> heap s !! h = Some o -> started o = true ->
  let s' := dispatch host (Elapse i) s in
  isListening s' = false /\ isStartingRef s' = false /\ isInitializedRef s' = false
  /\ consoleErrors s' = S (consoleErrors s)
  /\ calls s' = calls s ++ [Start h]
  /\ heap s' = heap s
  /\ recognitionRef s' = Some h
  /\ spokenText s' = spokenText s /\ interimText s' = interimText s.
Proof.
  intros Ht Hr Hh Ho. cbv zeta.
  rewrite (dispatch_Elapse_parked host s ToggleAfterDelay i Ht). cbn [resume].
  destruct s as [li sp it la rf ini st hp cs ts al ce]. cbn in Hr, Hh. subst rf.
  unfold exec, toggleListening_resumed, try_catch, start_current, engine_start,
    bind, write, read, throw, caught, setIsListening; fields.
  rewrite Hh, Ho. repeat split.
Qed.

Lemma refused_start_resets_the_page_witness :
  let s := twice_parked chrome in
  let s' := dispatch chrome (Elapse 0) s in
  (isListening s = true /\ timers s !! 0 = Some ToggleAfterDelay
   /\ recognitionRef s = Some 1 /\ option_map started (heap s !! 1) = Some true)
  /\ isListening s' = false /\ isStartingRef s' = false /\ isInitializedRef s' = false
  /\ consoleErrors s' = S (consoleErrors s)
  /\ calls s' = calls s ++ [Start 1]
  /\ heap s' = heap s
  /\ recognitionRef s' = Some 1
  /\ spokenText s' = spokenText s /\ interimText s' = interimText s.
Proof.
  cbv zeta. split; [repeat split|].
  apply (refused_start_resets_the_page chrome (twice_parked chrome) 0 1
           {| continuous := true; interimResults := true; lang := en_US;
              started := true; stopRequested := false |});
    reflexivity.
Defined.

(** X9. A press on a bound session that shows listening with the guard free
    takes the stop branch: the bound object is asked to stop, exactly that
    call is made, the page stops showing listening at once, nothing is parked,
    the guard stays free and the transcript is untouched; on a host with the
    capability the next press and its delay then start a new object. *)
Theorem press_while_listening_stops host (s : Session) (h : nat) :
  recognitionRef s = Some h -> isStartingRef s = false -> isListening s = true ->
  let s1 := dispatch host Click s in
  (isListening s1 = false /\ isStartingRef s1 = false /\ isInitializedRef s1 = false
   /\ recognitionRef s1 = Some h
   /\ calls s1 = calls s ++ [Stop h]
   /\ timers s1 = timers s
   /\ spokenText s1 = spokenText s /\ interimText s1 = interimText s
   /\ (forall o, heap s !! h = Some o -> started o = true ->
                 option_map stopRequested (heap s1 !! h) = Some true))
  /\ (capability host = true ->
      let s2 := run host [Click; Elapse (length (timers s))] s1 in
      isListening s2 = true /\ recognitionRef s2 = Some (length (heap s))).
Proof.
  intros Hr Hs Hl. cbv zeta.
  assert (E : dispatch host Click s = stopped h s).
  { unfold dispatch, exec. rewrite (toggleListening_stop host _ s h) by assumption.
    reflexivity. }
  rewrite E. split.
  - fields. repeat split; auto.
    intros o Ho Hst. rewrite request_stop_lookup, Ho.
    rewrite bool_decide_eq_true_2 by reflexivity. rewrite Hst. reflexivity.
  - intros Hc.
    destruct (press_uninitialized host (stopped h s) h Hc) as (P1 & _ & P3 & _);
      try reflexivity; try assumption.
    split; [exact P1|].
    etransitivity; [exact P3|]. f_equal. fields. apply request_stop_length.
Qed.

Lemma press_while_listening_stops_witness :
  let s := unguarded chrome in
  let s1 := dispatch chrome Click s in
  (recognitionRef s = Some 0 /\ isStartingRef s = false /\ isListening s = true
   /\ capability chrome = true)
  /\ isListening s1 = false
  /\ calls s1 = calls s ++ [Stop 0]
  /\ option_map stopRequested (heap s1 !! 0) = Some true
  /\ isListening (run chrome [Click; Elapse 0] s1) = true.
Proof.
  cbv zeta. split; [repeat split|].
  destruct (press_while_listening_stops chrome (unguarded chrome) 0
              eq_refl eq_refl eq_refl) as ((A & _ & _ & _ & B & _ & _ & _ & C) & D).
  destruct (D eq_refl) as (D1 & _).
  pose proof (C {| continuous := true; interimResults := true; lang := en_US;
                   started := true; stopRequested := false |} eq_refl eq_refl) as C1.
  split; [exact A|]. split; [exact B|]. split; [exact C1 | exact D1].
Defined.

(** * The older component, [SpeechToLetter], as a whole *)

Module SpeechToLetterProps.
Import SpeechToLetter.

Ltac page_fields :=
  cbn [isListening spokenText interimText language recognitionRef heap calls alerts
       setIsListening setLanguage setTexts with_recognitionRef with_heap logged
       alerted render r_isListening r_language fst snd].

Lemma letter_dispatch_spokenText host e p :
  spokenText (dispatch host e p) =
  match e with
  | EngineResult ev => fst (onresult ev (spokenText p, interimText p))
  | _ => spokenText p
  end.
Proof.
  assert (R : forall b q, spokenText (rerender host b q) = spokenText q).
  { intros b q. unfold rerender, initializeRecognition.
    destruct (Language_eqb (language q) b), (capability host); reflexivity. }
  destruct e; unfold dispatch.
  - unfold toggleListening, engine_start, engine_stop.
    destruct (recognitionRef p) as [h|]; [|reflexivity].
    destruct (negb (r_isListening (render p))); page_fields;
      (destruct (heap p !! h) as [o|]; [destruct (started o)|]);
      try destruct (stopThrows host); reflexivity.
  - rewrite R. unfold handleLanguageChange, engine_stop.
    destruct (recognitionRef p) as [h|]; [|reflexivity].
    destruct (r_isListening (render p)); [|reflexivity]. page_fields.
    destruct (alter (with_onend (Restart l (render p))) h (heap p) !! h) as [o|];
      [destruct (started o)|]; try destruct (stopThrows host); reflexivity.
  - reflexivity.
  - rewrite R. unfold fire_onend, restart, initializeRecognition, engine_start.
    page_fields.
    destruct (alter (mark_started false) h (heap p) !! h) as [o|]; [|reflexivity].
    destruct (onend o) as [|sel r]; [reflexivity|].
    destruct (capability host); cbn [negb]; page_fields.
    + rewrite list_lookup_middle by reflexivity. reflexivity.
    + destruct (recognitionRef p) as [h'|]; [|reflexivity]. page_fields.
      destruct (alter (mark_started false) h (heap p) !! h') as [o'|];
        [destruct (started o')|]; reflexivity.
Qed.

Lemma onresult_fst ev c i :
  exists t, fst (onresult ev (c, i)) = (c ++ t)%string
            /\ (t = "" \/ endsWithSpace t = true).
Proof.
  rewrite SpeechToLetter_onresult. cbv zeta.
  destruct (existsb isFinal (drop (resultIndex ev) (results ev))).
  - eexists. split; [reflexivity|]. right. apply endsWithSpace_append.
  - exists "". split; [symmetry; apply append_nil_r | left; reflexivity].
Qed.

Lemma separated_append c t :
  separated c = true -> t = "" \/ endsWithSpace t = true ->
  separated (c ++ t) = true.
Proof.
  intros Hc [->|Ht]; [rewrite append_nil_r; exact Hc|].
  unfold separated. apply orb_true_iff. right.
  clear Hc. induction c as [|a c IH]; [exact Ht|].
  cbn [append endsWithSpace]. rewrite IH.
  destruct (c ++ t)%string eqn:E; [|reflexivity].
  destruct c; cbn in E; [rewrite E in Ht; discriminate | discriminate].
Qed.

(** X11. In [SpeechToLetter] too the committed text only grows and stays
    separated: a task leaves [spokenText] a prefix of what it becomes, and in
    every page reached from the first render it is empty or ends with a
    space. *)
Theorem letter_committed_grows_separated host (es : list Event) :
  separated (spokenText (run host es (mount host))) = true
  /\ forall e p, String.prefix (spokenText p) (spokenText (dispatch host e p)) = true.
Proof.
  split.
  - induction es as [|e es IH] using rev_ind.
    + unfold mount, initializeRecognition. destruct (capability host); reflexivity.
    + unfold run in *. rewrite fold_left_app. cbn [fold_left].
      rewrite letter_dispatch_spokenText. destruct e; try exact IH.
      destruct (onresult_fst ev (spokenText (fold_left (fun p e => dispatch host e p)
                                               es (mount host)))
                  (interimText (fold_left (fun p e => dispatch host e p)
                                  es (mount host)))) as (t & -> & Ht).
      apply separated_append; assumption.
  - intros e p. rewrite letter_dispatch_spokenText. destruct e; try apply prefix_refl.
    destruct (onresult_fst ev (spokenText p) (interimText p)) as (t & -> & _).
    apply prefix_append.
Qed.

Lemma page_eq (p q : Page) :
  isListening p = isListening q -> spokenText p = spokenText q ->
  interimText p = interimText q -> language p = language q ->
  recognitionRef p = recognitionRef q -> heap p = heap q ->
  calls p = calls q -> alerts p = alerts q -> p = q.
Proof. destruct p, q; cbn; intros; subst; reflexivity. Qed.

Lemma Language_eqb_neq a b : a <> b -> Language_eqb a b = false.
Proof. destruct a, b; (reflexivity || congruence). Qed.

Lemma alter_started_back h (hp : list Recognition) o :
  hp !! h = Some o -> started o = false ->
  alter (mark_started false) h (alter (mark_started true) h hp) = hp.
Proof.
  intros Hh Ho. apply list_eq. intros j.
  destruct (decide (h = j)) as [->|Hne].
  - rewrite !list_lookup_alter_eq, Hh.
    destruct o as [c i l st k]. cbn in Ho. subst st. reflexivity.
  - rewrite !list_lookup_alter_ne by exact Hne. reflexivity.
Qed.

(** One press on a bound page that does not show listening, whose object is
    not started. *)
Lemma press_starts host p h o :
  recognitionRef p = Some h -> heap p !! h = Some o -> started o = false ->
  isListening p = false ->
  dispatch host Click p =
  setIsListening true (with_heap (alter (mark_started true) h) (logged (Start h) p)).
Proof.
  intros Hr Hh Ho Hl. unfold dispatch, toggleListening, engine_start. page_fields.
  rewrite Hr, Hl, Hh, Ho. reflexivity.
Qed.

(** One press on a bound page that shows listening, whose object is started. *)
Lemma press_stops host p h o :
  recognitionRef p = Some h -> heap p !! h = Some o -> started o = true ->
  isListening p = true ->
  dispatch host Click p = setIsListening false (logged (Stop h) p).
Proof.
  intros Hr Hh Ho Hl. unfold dispatch, toggleListening, engine_stop. page_fields.
  rewrite Hr, Hl, Hh, Ho. reflexivity.
Qed.

(** X12. In [SpeechToLetter], on a bound page that does not show listening and
    whose object is not started: one press starts the object and shows
    listening; a second press asks it to stop and shows not listening; once
    its end event has fired the page is as it was before the first press,
    but for the two calls made on the engine. *)
Theorem letter_press_press_end_round_trip host (p : Page) (h : nat) (o : Recognition) :
  recognitionRef p = Some h -> heap p !! h = Some o -> started o = false ->
  onend o = Default -> isListening p = false ->
  let p1 := dispatch host Click p in
  let p3 := run host [Click; Click; EngineEnd h] p in
  (isListening p1 = true /\ option_map started (heap p1 !! h) = Some true)
  /\ isListening p3 = false /\ heap p3 = heap p /\ recognitionRef p3 = Some h
  /\ language p3 = language p
  /\ spokenText p3 = spokenText p /\ interimText p3 = interimText p
  /\ alerts p3 = alerts p
  /\ calls p3 = calls p ++ [Start h; Stop h].
Proof.
  intros Hr Hh Ho Hk Hl. cbv zeta. unfold run. cbn [fold_left].
  rewrite (press_starts host p h o) by assumption.
  set (p1 := setIsListening true _).
  assert (H1 : heap p1 !! h = Some (mark_started true o))
    by (subst p1; page_fields; rewrite list_lookup_alter_eq, Hh; reflexivity).
  rewrite (press_stops host p1 h (mark_started true o)); try reflexivity; try assumption.
  split; [split; [reflexivity | rewrite H1; reflexivity]|].
  unfold dispatch, fire_onend. page_fields.
  rewrite list_lookup_alter_eq. subst p1. page_fields.
  rewrite list_lookup_alter_eq, Hh. cbn [fmap option_fmap option_map mark_started onend].
  rewrite Hk. unfold rerender. page_fields. rewrite Language_eqb_refl. page_fields.
  rewrite (alter_started_back h (heap p) o) by assumption.
  rewrite <- app_assoc. repeat split. exact Hr.
Qed.

Lemma letter_press_press_end_round_trip_witness :
  let p := mount chrome in
  let p3 := run chrome [Click; Click; EngineEnd 0] p in
  (recognitionRef p = Some 0 /\ isListening p = false)
  /\ isListening (dispatch chrome Click p) = true
  /\ isListening p3 = false /\ heap p3 = heap p
  /\ calls p3 = calls p ++ [Start 0; Stop 0].
Proof.
  cbv zeta. split; [repeat split|].
  destruct (letter_press_press_end_round_trip chrome (mount chrome) 0
              {| continuous := true; interimResults := true; lang := en_US;
                 started := false; onend := Default |}
              eq_refl eq_refl eq_refl eq_refl eq_refl)
    as ((A & _) & B & C & _ & _ & _ & _ & _ & D).
  split; [exact A|]. split; [exact B|]. split; [exact C | exact D].
Defined.

(** X13. In [SpeechToLetter] a third press that comes before the end event of
    the stopped object is refused by the engine, and since [toggleListening]
    has no [try] the exception leaves the handler: the page keeps showing not
    listening and the objects are unchanged. *)
Theorem letter_press_before_end_is_refused host (p : Page) (h : nat) (o : Recognition) :
  recognitionRef p = Some h -> heap p !! h = Some o -> started o = false ->
  isListening p = false ->
  let p2 := run host [Click; Click] p in
  fst (toggleListening host (render p2) p2) = Throw InvalidStateError
  /\ isListening (dispatch host Click p2) = false
  /\ heap (dispatch host Click p2) = heap p2
  /\ calls (dispatch host Click p2) = calls p ++ [Start h; Stop h; Start h].
Proof.
  intros Hr Hh Ho Hl. cbv zeta. unfold run. cbn [fold_left].
  rewrite (press_starts host p h o) by assumption.
  set (p1 := setIsListening true _).
  assert (H1 : heap p1 !! h = Some (mark_started true o))
    by (subst p1; page_fields; rewrite list_lookup_alter_eq, Hh; reflexivity).
  rewrite (press_stops host p1 h (mark_started true o)); try reflexivity; try assumption.
  unfold dispatch, toggleListening, engine_start. page_fields.
  subst p1. page_fields. rewrite Hr. page_fields.
  rewrite list_lookup_alter_eq, Hh.
  cbn [fmap option_fmap option_map mark_started started negb]. page_fields.
  rewrite <- !app_assoc. repeat split.
Qed.

Lemma letter_press_before_end_is_refused_witness :
  let p2 := run chrome [Click; Click] (mount chrome) in
  (recognitionRef (mount chrome) = Some 0 /\ isListening (mount chrome) = false)
  /\ fst (toggleListening chrome (render p2) p2) = Throw InvalidStateError
  /\ isListening (dispatch chrome Click p2) = false.
Proof.
  cbv zeta. split; [repeat split|].
  destruct (letter_press_before_end_is_refused chrome (mount chrome) 0
              {| continuous := true; interimResults := true; lang := en_US;
                 started := false; onend := Default |}
              eq_refl eq_refl eq_refl eq_refl) as (A & B & _).
  split; [exact A | exact B].
Defined.

(** X14. In [SpeechToLetter], on a host with the capability, selecting another
    language on a page that does not show listening stores it and binds a new
    object configured for it, without a call on the object bound before; the
    next press starts that new object. *)
Theorem letter_select_then_press host (l : Language) (p : Page) :
  capability host = true -> isListening p = false -> l <> language p ->
  let n := length (heap p) in
  let p1 := dispatch host (Select l) p in
  let p2 := dispatch host Click p1 in
  language p1 = l /\ recognitionRef p1 = Some n /\ isListening p1 = false
  /\ isListening p2 = true /\ recognitionRef p2 = Some n /\ language p2 = l
  /\ (exists o, heap p2 !! n = Some o /\ lang o = l /\ started o = true
                /\ continuous o = true /\ interimResults o = true)
  /\ calls p2 = calls p ++ [New n l; Start n].
Proof.
  intros Hc Hl Hne. cbv zeta.
  assert (E1 : dispatch host (Select l) p =
               initializeRecognition host l (setLanguage l p)).
  { unfold dispatch, handleLanguageChange. page_fields. rewrite Hl.
    destruct (recognitionRef p); cbn [snd]; unfold rerender; page_fields;
      rewrite (Language_eqb_neq l (language p) Hne); reflexivity. }
  rewrite E1. unfold initializeRecognition. rewrite Hc. cbn [negb]. page_fields.
  set (o := {| continuous := true; interimResults := true; lang := l;
               started := false; onend := Default |}).
  set (p1 := with_recognitionRef _ _).
  rewrite (press_starts host p1 (length (heap p)) o);
    [| reflexivity | subst p1; page_fields; apply list_lookup_middle; reflexivity
     | reflexivity | exact Hl].
  subst p1. page_fields. repeat split.
  - exact Hl.
  - exists (mark_started true o). rewrite list_lookup_alter_eq.
    rewrite list_lookup_middle by reflexivity. repeat split.
  - rewrite <- app_assoc. reflexivity.
Qed.

Lemma letter_select_then_press_witness :
  let p := mount chrome in
  let p2 := run chrome [Select es_ES; Click] p in
  (capability chrome = true /\ isListening p = false /\ es_ES <> language p)
  /\ isListening p2 = true /\ recognitionRef p2 = Some 1 /\ language p2 = es_ES
  /\ calls p2 = calls p ++ [New 1 es_ES; Start 1].
Proof.
  cbv zeta. split; [repeat split; discriminate|].
  destruct (letter_select_then_press chrome es_ES (mount chrome) eq_refl eq_refl)
    as (_ & _ & _ & A & B & C & _ & D); [discriminate|].
  split; [exact A|]. split; [exact B|]. split; [exact C | exact D].
Defined.

(** X15. In [SpeechToLetter], on a host with the capability, selecting another
    language on a bound page that shows listening only asks the bound object
    to stop; the language changes when that object's end event fires. The
    handler then binds and starts a new object configured for the language of
    the render the select ran in, that is the previous one, and the effect of
    the changed language binds a second new object, for the selected
    language, which is not started. The page shows listening throughout, and
    a press then calls [stop()] on the bound object only: the started one is
    never asked to stop. *)
Theorem letter_language_change_while_listening host (sel : Language) (p : Page)
    (h : nat) (o : Recognition) :
  capability host = true -> isListening p = true ->
  recognitionRef p = Some h -> heap p !! h = Some o -> sel <> language p ->
  let n := length (heap p) in
  let p1 := dispatch host (Select sel) p in
  let p2 := dispatch host (EngineEnd h) p1 in
  let p3 := dispatch host Click p2 in
  (language p1 = language p /\ isListening p1 = true
   /\ calls p1 = calls p ++ [Stop h])
  /\ (language p2 = sel /\ isListening p2 = true /\ recognitionRef p2 = Some (S n)
      /\ (exists a, heap p2 !! n = Some a /\ started a = true /\ lang a = language p)
      /\ (exists b, heap p2 !! S n = Some b /\ started b = false /\ lang b = sel)
      /\ calls p2 = calls p ++ [Stop h; New n (language p); Start n; New (S n) sel])
  /\ (calls p3 = calls p2 ++ [Stop (S n)]
      /\ exists a, heap p3 !! n = Some a /\ started a = true).
Proof.
  intros Hc Hl Hr Hh Hne. cbv zeta.
  assert (R : forall q, language q = language p -> rerender host (language p) q = q)
    by (intros q Hq; unfold rerender; rewrite Hq, Language_eqb_refl; reflexivity).
  assert (E1 : dispatch host (Select sel) p =
               logged (Stop h)
                 (with_heap (alter (with_onend (Restart sel (render p))) h) p)).
  { unfold dispatch, handleLanguageChange, engine_stop. page_fields.
    rewrite Hr, Hl. page_fields. rewrite list_lookup_alter_eq, Hh.
    cbn [fmap option_fmap option_map with_onend started].
    destruct (started o); [|destruct (stopThrows host)]; cbn [snd]; apply R; reflexivity. }
  rewrite E1. split; [repeat split; assumption|].
  remember {| continuous := true; interimResults := true; lang := language p;
              started := false; onend := Default |} as a eqn:Ea.
  remember {| continuous := true; interimResults := true; lang := sel;
              started := false; onend := Default |} as b eqn:Eb.
  remember (alter (mark_started false) h
              (alter (with_onend (Restart sel (render p))) h (heap p))) as hp1 eqn:E.
  assert (Len : length hp1 = length (heap p))
    by (subst hp1; rewrite !length_alter; reflexivity).
  assert (L : hp1 !! h = Some (mark_started false (with_onend (Restart sel (render p)) o)))
    by (subst hp1; rewrite !list_lookup_alter_eq, Hh; reflexivity).
  assert (E2 : dispatch host (EngineEnd h)
                 (logged (Stop h)
                    (with_heap (alter (with_onend (Restart sel (render p))) h) p)) =
               {| isListening := true; spokenText := spokenText p;
                  interimText := interimText p; language := sel;
                  recognitionRef := Some (S (length hp1));
                  heap := (hp1 ++ [mark_started true a]) ++ [b];
                  calls := calls p ++ [Stop h; New (length hp1) (language p);
                                       Start (length hp1); New (S (length hp1)) sel];
                  alerts := alerts p |}).
  { unfold dispatch, fire_onend. page_fields. rewrite <- E, L.
    cbn [onend mark_started with_onend].
    unfold restart, initializeRecognition. rewrite Hc. cbn [negb]. page_fields.
    unfold engine_start. page_fields. rewrite <- ?E, <- ?Ea.
    rewrite list_lookup_middle by reflexivity.
    replace (started a) with false by (subst a; reflexivity). page_fields.
    unfold rerender. page_fields.
    rewrite (Language_eqb_neq sel (language p) Hne).
    unfold initializeRecognition. rewrite Hc. cbn [negb]. page_fields.
    assert (A1 : alter (with_onend Default) (length hp1)
                   (alter (mark_started true) (length hp1) (hp1 ++ [a]))
                 = hp1 ++ [mark_started true a]).
    { replace (length hp1) with (length hp1 + 0) by lia.
      rewrite !alter_app_r. subst a. reflexivity. }
    apply page_eq; page_fields; rewrite <- ?E, <- ?Eb, ?A1, ?length_app;
      cbn [length];
      replace (length hp1 + 1) with (S (length hp1)) by lia;
      rewrite <- ?app_assoc; auto. }
  rewrite E2, Len. clear E2.
  assert (La : ((hp1 ++ [mark_started true a]) ++ [b]) !! length (heap p)
               = Some (mark_started true a)).
  { rewrite lookup_app_l by (rewrite length_app; cbn; lia).
    rewrite <- Len. apply list_lookup_middle. reflexivity. }
  assert (Lb : ((hp1 ++ [mark_started true a]) ++ [b]) !! S (length (heap p)) = Some b).
  { apply list_lookup_middle. rewrite length_app, Len. cbn. lia. }
  split.
  - page_fields.
    split; [reflexivity|]. split; [reflexivity|]. split; [reflexivity|].
    split; [|split; [|reflexivity]].
    + exists (mark_started true a). split; [exact La | subst a; split; reflexivity].
    + exists b. split; [exact Lb | subst b; split; reflexivity].
  - assert (E3 : forall q, heap q = (hp1 ++ [mark_started true a]) ++ [b] ->
                   recognitionRef q = Some (S (length (heap p))) ->
                   isListening q = true ->
                   calls (dispatch host Click q) = calls q ++ [Stop (S (length (heap p)))]
                   /\ heap (dispatch host Click q) = heap q).
    { intros q Hq Hrq Hlq.
      unfold dispatch, toggleListening, engine_stop. page_fields.
      rewrite Hrq, Hlq. page_fields. rewrite Hq, Lb.
      replace (started b) with false by (subst b; reflexivity).
      destruct (stopThrows host); page_fields; split; (reflexivity || exact Hq). }
    match goal with |- calls (dispatch host Click ?q) = _ /\ _ =>
      destruct (E3 q eq_refl eq_refl eq_refl) as (C1 & C2) end.
    split; [exact C1|]. rewrite C2.
    exists (mark_started true a). split; [exact La | reflexivity].
Qed.

Lemma letter_language_change_while_listening_witness :
  let p := dispatch chrome Click (mount chrome) in
  let p2 := run chrome [Select es_ES; EngineEnd 0] p in
  (capability chrome = true /\ isListening p = true /\ recognitionRef p = Some 0
   /\ es_ES <> language p)
  /\ language p2 = es_ES /\ isListening p2 = true /\ recognitionRef p2 = Some 2
  /\ (exists a, heap p2 !! 1 = Some a /\ started a = true /\ lang a = en_US)
  /\ (exists b, heap p2 !! 2 = Some b /\ started b = false /\ lang b = es_ES).
Proof.
  cbv zeta. split; [repeat split; discriminate|].
  destruct (letter_language_change_while_listening chrome es_ES
              (dispatch chrome Click (mount chrome)) 0
              {| continuous := true; interimResults := true; lang := en_US;
                 started := true; onend := Default |}
              eq_refl eq_refl eq_refl eq_refl)
    as (_ & (A & B & C & D & E & _) & _); [discriminate|].
  split; [exact A|]. split; [exact B|]. split; [exact C|]. split; [exact D | exact E].
Defined.

End SpeechToLetterProps.

(** * The two aggregators side by side *)

Lemma preview_after_batch_eq (ev : SpeechRecognitionEvent) (s : Session) host :
  interimText (dispatch host (EngineResult ev) s) =
  if commits (results ev) then "" else join "" (interims (results ev)).
Proof. apply onresult_interimText. Qed.

(** X10. [SpeechToLetter]'s result handler reads only the results from
    [resultIndex] on: what comes before does not matter. If that window holds
    a final result, the final transcripts joined by single spaces plus one
    trailing space are appended to the committed text and the preview is
    cleared, also when the only final transcript is empty; otherwise the
    committed text is kept and the preview becomes the concatenation of the
    window's transcripts. *)
Theorem letter_onresult_reads_the_window (ev : SpeechRecognitionEvent)
    (committed preview : string) :
  let window := drop (resultIndex ev) (results ev) in
  SpeechToLetter.onresult ev (committed, preview) =
    SpeechToLetter.onresult {| resultIndex := 0; results := window |} (committed, preview)
  /\ SpeechToLetter.onresult ev (committed, preview) =
     if existsb isFinal window
     then ((committed ++ join " " (finals window) ++ " ")%string, "")
     else (committed, join "" (map text window)).
Proof.
  cbv zeta. split; [reflexivity|].
  rewrite SpeechToLetter_onresult. cbv zeta.
  destruct (existsb isFinal (drop (resultIndex ev) (results ev))) eqn:E; [reflexivity|].
  f_equal. f_equal. unfold interims.
  induction (drop (resultIndex ev) (results ev)) as [|r rs IH]; [reflexivity|].
  cbn [existsb] in E. apply orb_false_iff in E as [E1 E2].
  cbn [List.filter]. rewrite E1. cbn [negb map]. f_equal. apply IH, E2.
Qed.

(** X16. On an event that starts at index 0 and whose batch either holds no
    final result or carries final text, the two components compute the same
    committed text and the same preview. *)
Theorem aggregators_agree host (ev : SpeechRecognitionEvent) (s : Session) :
  resultIndex ev = 0 ->
  commits (results ev) = existsb isFinal (results ev) ->
  SpeechToLetter.onresult ev (spokenText s, interimText s) =
  (spokenText (dispatch host (EngineResult ev) s),
   interimText (dispatch host (EngineResult ev) s)).
Proof.
  intros H0 Hc.
  rewrite SpeechToLetter_onresult, H0. cbv zeta. rewrite drop_0.
  rewrite dispatch_spokenText, (preview_after_batch_eq ev s host), contribution_commits, Hc.
  destruct (existsb isFinal (results ev)); [reflexivity|].
  rewrite append_nil_r. reflexivity.
Qed.

Lemma aggregators_agree_witness :
  resultIndex (batch [fin "hello"; part "wor"]) = 0
  /\ commits [fin "hello"; part "wor"] = existsb isFinal [fin "hello"; part "wor"]
  /\ SpeechToLetter.onresult (batch [fin "hello"; part "wor"])
       (spokenText (mount chrome), interimText (mount chrome)) =
     (spokenText (dispatch chrome (EngineResult (batch [fin "hello"; part "wor"]))
                    (mount chrome)),
      interimText (dispatch chrome (EngineResult (batch [fin "hello"; part "wor"]))
                     (mount chrome))).
Proof.
  split; [reflexivity|]. split; [reflexivity|].
  apply (aggregators_agree chrome (batch [fin "hello"; part "wor"]) (mount chrome));
    reflexivity.
Defined.

Lemma finals_app rs1 rs2 : finals (rs1 ++ rs2) = finals rs1 ++ finals rs2.
Proof. unfold finals. rewrite List.filter_app, map_app. reflexivity. Qed.

Lemma commits_app_l rs1 rs2 : commits rs1 = true -> commits (rs1 ++ rs2) = true.
Proof.
  unfold commits. rewrite finals_app.
  destruct (finals rs1) as [|t [|u ts]]; [discriminate | | reflexivity].
  destruct (finals rs2); cbn; auto.
Qed.

(** X17. When the engine delivers its results cumulatively, a second event
    holding the results of the first followed by new ones, with [resultIndex]
    at the first new one: [SpeechToLetter] treats the second event as the new
    results alone, while [SpeechToText], which reads the whole list, commits
    the final text of the first event a second time. *)
Theorem cumulative_delivery host (rs1 rs2 : list SpeechRecognitionResult)
    (s : Session) (st : string * string) :
  commits rs1 = true ->
  let ev1 := {| resultIndex := 0; results := rs1 |} in
  let ev2 := {| resultIndex := length rs1; results := rs1 ++ rs2 |} in
  SpeechToLetter.onresult ev2 st =
    SpeechToLetter.onresult {| resultIndex := 0; results := rs2 |} st
  /\ spokenText (run host [EngineResult ev1; EngineResult ev2] s) =
     (spokenText s ++ (join " " (finals rs1) ++ " ")
        ++ (join " " (finals rs1 ++ finals rs2) ++ " "))%string.
Proof.
  intros Hc. cbv zeta. split.
  - unfold SpeechToLetter.onresult. cbn [resultIndex results].
    rewrite drop_app_length, drop_0. reflexivity.
  - cbn [run fold_left]. rewrite !dispatch_spokenText. cbn [results].
    rewrite !contribution_commits, Hc, (commits_app_l rs1 rs2 Hc), finals_app.
    rewrite !append_assoc. reflexivity.
Qed.

Lemma cumulative_delivery_witness :
  commits [fin "a"] = true
  /\ SpeechToLetter.onresult {| resultIndex := 1; results := [fin "a"; fin "b"] |} ("a ", "")
     = ("a b ", "")
  /\ spokenText (run chrome [EngineResult {| resultIndex := 0; results := [fin "a"] |};
                             EngineResult {| resultIndex := 1;
                                             results := [fin "a"; fin "b"] |}]
                   (mount chrome)) = "a a b ".
Proof.
  split; [reflexivity|].
  destruct (cumulative_delivery chrome [fin "a"] [fin "b"] (mount chrome) ("a ", "")
              eq_refl) as (A & B).
  split; [etransitivity; [exact A | reflexivity]
         | etransitivity; [exact B | reflexivity]].
Defined.
